(** * TypeMaster: typing session, metrics, countdown timer, progress store

    A shallow embedding of the stateful core of the TypeMaster typing tutor:

    - [src/hooks/useTypingSession.js]  (hook [useTypingSession])
    - [src/hooks/useKeyboardInput.js]  (hook [useKeyboardInput])
    - [src/hooks/useTimer.js]          (hook [useTimer])
    - [src/utils/statsCalculator.js]   ([calculateWPM], [calculateAccuracy],
      ratings, recommendations, summaries)
    - [src/utils/csvLoader.js]         (selection of exercises and levels)
    - [src/utils/storage.js]           ([exportProgress], [importProgress])
    - [src/context/AppContext.jsx]     ([appReducer], [importData], [exportData])
    - [src/components/LearningMode.jsx], [src/components/TestMode.jsx]

    Conventions.  A React hook is a record holding the values of its
    [useState]/[useRef] cells; an event handler is a function from the record
    at the last render to the record at the next one.  Handlers run one at a
    time and the component re-renders in between, so the values a callback
    closes over are those of the current record.  JavaScript numbers that
    count things (indices, counters, milliseconds, seconds) are [Z].  A
    number that comes out of a division is the rational [Q] it denotes: the
    metric functions of [statsCalculator.js] compute with the binary64
    operations of module [Double], each one the exact result rounded to the
    nearest double, ties to even; [Math.round] is [floor (x + 1/2)].  The
    progress percentages of the two hooks, which are only displayed, are
    exact rationals. *)

From Stdlib Require Import ZArith QArith Qround Lia Lqa.
From Stdlib Require Import Qminmax Qpower.
From stdpp Require Import gmap strings list pretty sorting.

Local Open Scope Z_scope.

(** ** JavaScript values used by the code *)

Module Js.

(** [text[i]]: the one-character string at index [i], [None] for
    [undefined] (index out of range). *)
Definition charAt (text : string) (i : Z) : option string :=
  if i <? 0 then None
  else (λ c, String c EmptyString) <$> String.get (Z.to_nat i) text.

(** [key === expectedChar] where [expectedChar] may be [undefined]. *)
Definition strictEq (key : string) (expectedChar : option string) : bool :=
  match expectedChar with
  | Some e => bool_decide (key = e)
  | None => false
  end.

(** [!text] for a string: only the empty string is falsy. *)
Definition isEmpty (text : string) : bool :=
  match text with
  | EmptyString => true
  | String _ _ => false
  end.

(** The property name a value denotes when used as an object key:
    [obj[undefined]] is [obj["undefined"]]. *)
Definition propertyKey (k : option string) : string :=
  match k with
  | Some s => s
  | None => "undefined"
  end.

(** [Math.round]: nearest integer, ties towards plus infinity. *)
Definition Math_round (x : Q) : Z := Qfloor (x + (1 # 2))%Q.

(** [arr.slice(0, -1)] *)
Definition dropLast {A} (l : list A) : list A := removelast l.

(** [arr.slice(0, n)] for [n >= 0] *)
Definition sliceTo {A} (n : nat) (l : list A) : list A := take n l.

End Js.

(** ** The arithmetic of JavaScript numbers (binary64)

    A finite double is the rational it denotes.  An operation returns the
    exact result rounded to the nearest double, ties to the even
    significand: 53 bits of precision, the exponent of the last bit not
    below -1074 (gradual underflow).  The results of this program stay far
    below [2 ^ 1024], so the overflow to [Infinity] is left out, and [div]
    is meant for a divisor that is not zero ([x / 0] is [Infinity] or [NaN]
    in JavaScript). *)

Module Double.
Local Open Scope Q_scope.

(** [floor (log2 a)] for [a > 0] *)
Definition ilog2 (a : Q) : Z :=
  let k := (Z.log2 (Qnum a) - Z.log2 (Zpos (Qden a)))%Z in
  if Qle_bool (2 ^ k) a then k else (k - 1)%Z.

(** Nearest integer, ties to the even one. *)
Definition roundHalfEven (m : Q) : Z :=
  let f := Qfloor m in
  match Qcompare (m - inject_Z f) (1 # 2) with
  | Lt => f
  | Gt => (f + 1)%Z
  | Eq => if Z.even f then f else (f + 1)%Z
  end.

(** The exponent of the last bit of the significand of [a > 0]. *)
Definition exponent (a : Q) : Z := Z.max (ilog2 a - 52) (-1074).

(** The double nearest to [a > 0]. *)
Definition magnitude (a : Q) : Q :=
  let e := exponent a in
  inject_Z (roundHalfEven (a / 2 ^ e)) * 2 ^ e.

(** The double nearest to [x]. *)
Definition round (x : Q) : Q :=
  match Qcompare x 0 with
  | Eq => 0
  | Gt => Qred (magnitude x)
  | Lt => Qred (- magnitude (- x))
  end.

(** [x / y], [x * y], [x + y] on doubles *)
Definition div (x y : Q) : Q := round (x / y).
Definition mul (x y : Q) : Q := round (x * y).
Definition add (x y : Q) : Q := round (x + y).

(** The double a decimal literal such as [1.7] denotes. *)
Definition literal (x : Q) : Q := round x.

End Double.

(** ** Statistics ([statsCalculator.js]) *)

Module Stats.

(** [minutes] is not zero for an elapsed time of one millisecond or more
    (lemma [minutes_positive]); the elapsed times of a session are whole
    milliseconds. *)
Definition calculateWPM (correctChars elapsedTimeMs : Q) : Q :=
  if Qle_bool elapsedTimeMs 0 then 0%Q
  else
    let words := Double.div correctChars 5 in
    let minutes := Double.div elapsedTimeMs 60000 in
    let wpm := Double.div words minutes in
    Double.div (inject_Z (Js.Math_round (Double.mul wpm 10))) 10.

Definition calculateAccuracy (correctChars totalChars : Q) : Q :=
  if Qle_bool totalChars 0 then 100%Q
  else
    let accuracy := Double.mul (Double.div correctChars totalChars) 100 in
    Double.div (inject_Z (Js.Math_round (Double.mul accuracy 10))) 10.

End Stats.

(** ** JSON values and the host's [JSON.stringify] / [JSON.parse] *)

Module Json.

(** A value that [JSON.parse] can return.  An object is a finite map from
    property names to values. *)
#[local] Unset Elimination Schemes.
Inductive JSON :=
| JNull
| JBool (b : bool)
| JNumber (n : Q)
| JString (s : string)
| JArray (items : list JSON)
| JObject (fields : gmap string JSON).
#[local] Set Elimination Schemes.

(** Truthiness of a value in a condition or on the left of [||] / [&&]. *)
Definition truthy (v : JSON) : bool :=
  match v with
  | JNull => false
  | JBool b => b
  | JNumber n => negb (Qeq_bool n 0)
  | JString s => negb (Js.isEmpty s)
  | JArray _ => true
  | JObject _ => true
  end.

(** [typeof v === 'object'] *)
Definition typeofObject (v : JSON) : bool :=
  match v with
  | JNull | JArray _ | JObject _ => true
  | JBool _ | JNumber _ | JString _ => false
  end.

(** [Array.isArray(v)] *)
Definition isArray (v : JSON) : bool :=
  match v with
  | JArray _ => true
  | _ => false
  end.

(** [v.name] for a non-null [v] and a [name] that is neither an index nor a
    built-in property: [None] is [undefined]. *)
Definition prop (v : JSON) (name : string) : option JSON :=
  match v with
  | JObject fields => fields !! name
  | _ => None
  end.

(** Truthiness of a possibly [undefined] value. *)
Definition truthy_opt (v : option JSON) : bool :=
  match v with
  | Some x => truthy x
  | None => false
  end.

(** [v || d] *)
Definition or_else (v : option JSON) (d : JSON) : JSON :=
  match v with
  | Some x => if truthy x then x else d
  | None => d
  end.

(** A string handed to [JSON.parse]: either the text of a JSON document,
    identified with the value it denotes (layout and key order are
    immaterial to the code), or a string that is not JSON. *)
Inductive JsonText :=
| Document (v : JSON)
| NotJson (raw : string).

(** [JSON.stringify(v, null, 2)] *)
Definition stringify (v : JSON) : JsonText := Document v.

(** [JSON.parse(s)]: [None] when it throws [SyntaxError]. *)
Definition parse (s : JsonText) : option JSON :=
  match s with
  | Document v => Some v
  | NotJson _ => None
  end.

End Json.

(** ** Export and import of progress ([storage.js]) *)

Module Storage.
Import Json.

(** The object [importProgress] returns. *)
Record Progress := mkProgress {
  history : JSON;
  mistypedKeys : JSON;
}.

(** [exportProgress(data)]; [now] is [new Date().toISOString()].  The
    [catch] branch is not reachable for a [data] made of JSON values. *)
Definition exportProgress (data : gmap string JSON) (now : string) : JsonText :=
  let exportData :=
    <["version" := JString "1.0"]> (<["exportedAt" := JString now]> data) in
  stringify (JObject exportData).

(** [importProgress(jsonString)]; [None] is the [null] result. *)
Definition importProgress (jsonString : JsonText) : option Progress :=
  match parse jsonString with
  | None => None
  | Some data =>
      if truthy data && typeofObject data then
        if truthy_opt (prop data "history")
           && negb (from_option isArray false (prop data "history"))
        then None
        else if truthy_opt (prop data "mistypedKeys")
                && negb (from_option typeofObject false (prop data "mistypedKeys"))
        then None
        else Some (mkProgress (or_else (prop data "history") (JArray []))
                              (or_else (prop data "mistypedKeys") (JObject ∅)))
      else None
  end.

End Storage.

(** ** The application store ([AppContext.jsx]) *)

Module Store.

(** The slice of the reducer state that the session, the history and the
    import path read or write.  [history] and [mistypedKeys] are
    dynamically typed in the source: the reducer cases that only store a
    payload are polymorphic, the cases that compute take the type they
    compute with. *)
Record AppState (H T : Type) := mkAppState {
  isSessionActive : bool;
  sessionStartTime : option Z;
  history : H;
  mistypedKeys : T;
}.
Arguments mkAppState {H T}.
Arguments isSessionActive {H T}.
Arguments sessionStartTime {H T}.
Arguments history {H T}.
Arguments mistypedKeys {H T}.

Section Cases.
Context {H T : Type}.

(** case [START_SESSION] ([Date.now()] is [now]) *)
Definition START_SESSION (now : Z) (st : AppState H T) : AppState H T :=
  mkAppState true (Some now) (history st) (mistypedKeys st).

(** cases [END_SESSION] and [RESET_SESSION] agree on this slice *)
Definition END_SESSION (st : AppState H T) : AppState H T :=
  mkAppState false None (history st) (mistypedKeys st).

Definition RESET_SESSION (st : AppState H T) : AppState H T :=
  mkAppState false None (history st) (mistypedKeys st).

(** case [SET_HISTORY] *)
Definition SET_HISTORY (payload : H) (st : AppState H T) : AppState H T :=
  mkAppState (isSessionActive st) (sessionStartTime st) payload (mistypedKeys st).

(** case [SET_MISTYPED_KEYS] *)
Definition SET_MISTYPED_KEYS (payload : T) (st : AppState H T) : AppState H T :=
  mkAppState (isSessionActive st) (sessionStartTime st) (history st) payload.
End Cases.

(** case [ADD_HISTORY]:
    [[action.payload, ...state.history].slice(0, 100)] *)
Definition ADD_HISTORY {R T} (payload : R) (st : AppState (list R) T)
  : AppState (list R) T :=
  mkAppState (isSessionActive st) (sessionStartTime st)
             (Js.sliceTo 100 (payload :: history st)) (mistypedKeys st).

(** The count a tally holds for a key, [tally[key] || 0].  The tally is a
    plain object and the finite map holds its own properties: that is what
    [tally[key]] reads for a key that names no property of
    [Object.prototype], as is every key of one character and ["undefined"],
    the keys this program records. *)
Definition count (tally : gmap string nat) (key : string) : nat :=
  default 0%nat (tally !! key).

(** case [UPDATE_MISTYPED_KEYS]:
    [newMistypedKeys[key] = (newMistypedKeys[key] || 0) + 1] on a copy, for
    a [key] that names no property of [Object.prototype] *)
Definition UPDATE_MISTYPED_KEYS {H} (key : string) (st : AppState H (gmap string nat))
  : AppState H (gmap string nat) :=
  let newMistypedKeys := mistypedKeys st in
  mkAppState (isSessionActive st) (sessionStartTime st) (history st)
             (<[key := (default 0%nat (newMistypedKeys !! key) + 1)%nat]> newMistypedKeys).

(** The store as the application creates it: a list of records and a
    tally of counts per expected character. *)
Section Typed.
Context {R : Type}.

Inductive Action : Type :=
| A_START_SESSION (now : Z)
| A_END_SESSION
| A_ADD_HISTORY (payload : R)
| A_SET_HISTORY (payload : list R)
| A_UPDATE_MISTYPED_KEYS (payload : string)
| A_SET_MISTYPED_KEYS (payload : gmap string nat)
| A_RESET_SESSION.

Definition appReducer (state : AppState (list R) (gmap string nat)) (action : Action)
  : AppState (list R) (gmap string nat) :=
  match action with
  | A_START_SESSION now => START_SESSION now state
  | A_END_SESSION => END_SESSION state
  | A_ADD_HISTORY payload => ADD_HISTORY payload state
  | A_SET_HISTORY payload => SET_HISTORY payload state
  | A_UPDATE_MISTYPED_KEYS payload => UPDATE_MISTYPED_KEYS payload state
  | A_SET_MISTYPED_KEYS payload => SET_MISTYPED_KEYS payload state
  | A_RESET_SESSION => RESET_SESSION state
  end.

(** [initialState] *)
Definition initialState : AppState (list R) (gmap string nat) :=
  mkAppState false None [] ∅.
End Typed.
Arguments Action : clear implicits.

(** The store as the export and import path sees it: both fields hold
    whatever JSON value was put there. *)
Definition exportData (now : string) (state : AppState Json.JSON Json.JSON)
  : Json.JsonText :=
  Storage.exportProgress
    (<["mistypedKeys" := mistypedKeys state]> {["history" := history state]}) now.

Definition importData (jsonString : Json.JsonText) (state : AppState Json.JSON Json.JSON)
  : bool * AppState Json.JSON Json.JSON :=
  match Storage.importProgress jsonString with
  | Some data =>
      let state1 :=
        if Json.truthy (Storage.history data)
        then SET_HISTORY (Storage.history data) state else state in
      let state2 :=
        if Json.truthy (Storage.mistypedKeys data)
        then SET_MISTYPED_KEYS (Storage.mistypedKeys data) state1 else state1 in
      (true, state2)
  | None => (false, state)
  end.

End Store.

(** ** The typing session ([useTypingSession.js]) *)

Module Session.
Import Store.

Inductive Mode := learning | test.

Global Instance Mode_eq_dec : EqDecision Mode.
Proof. solve_decision. Defined.

(** One element of [typedChars]: [{ char, expected, correct }]. *)
Record TypedChar := mkTypedChar {
  char : string;
  expected : option string;
  correct : bool;
}.

(** The cells of the hook. [errors] is the spec's [errorCount];
    [startTime] is [startTimeRef.current]. *)
Record State := mkState {
  currentIndex : Z;
  typedChars : list TypedChar;
  hasStarted : bool;
  isComplete : bool;
  startTime : option Z;
  elapsedTime : Z;
  errors : Z;
  correctCount : Z;
}.

(** The hook together with the store its [actions] dispatch to. *)
Record Hook {H : Type} := mkHook {
  session : State;
  app : AppState H (gmap string nat);
}.
Arguments Hook : clear implicits.
Arguments mkHook {H}.

Definition initial : State :=
  mkState 0 [] false false None 0 0 0.

Inductive CharStatus := st_correct | st_incorrect | st_current | st_pending.

Section WithText.
Context {H : Type}.
Variable text : string.
Variable mode : Mode.

Definition reset (h : Hook H) : Hook H :=
  mkHook initial (RESET_SESSION (app h)).

Definition handleKeyPress (key : string) (now : Z) (h : Hook H) : Hook H :=
  let s := session h in
  if isComplete s || Js.isEmpty text then h
  else
    (* start session on first keypress *)
    let started := hasStarted s in
    let startTime' := if started then startTime s else Some now in
    let app1 := if started then app h else START_SESSION now (app h) in
    let expectedChar := Js.charAt text (currentIndex s) in
    let isCorrect := Js.strictEq key expectedChar in
    (* record the typed character *)
    let typedChars' := typedChars s ++ [mkTypedChar key expectedChar isCorrect] in
    let correctCount' := if isCorrect then correctCount s + 1 else correctCount s in
    let errors' := if isCorrect then errors s else errors s + 1 in
    let app2 :=
      if isCorrect then app1
      else UPDATE_MISTYPED_KEYS (Js.propertyKey expectedChar) app1 in
    (* move to next character *)
    let nextIndex := currentIndex s + 1 in
    (* check if complete *)
    let complete := Z.of_nat (String.length text) <=? nextIndex in
    let app3 := if complete then END_SESSION app2 else app2 in
    mkHook
      (mkState nextIndex typedChars' true (if complete then true else isComplete s)
               startTime' (elapsedTime s) errors' correctCount')
      app3.

Definition handleBackspace (h : Hook H) : Hook H :=
  let s := session h in
  if negb (bool_decide (mode = learning)) || (currentIndex s =? 0) then h
  else
    let lastTyped := last (typedChars s) in
    let errors' :=
      match lastTyped with
      | Some e => if negb (correct e) then Z.max 0 (errors s - 1) else errors s
      | None => errors s
      end in
    let correctCount' :=
      match lastTyped with
      | Some e => if negb (correct e) then correctCount s
                  else Z.max 0 (correctCount s - 1)
      | None => correctCount s
      end in
    mkHook
      (mkState (currentIndex s - 1) (Js.dropLast (typedChars s))
               (hasStarted s) (isComplete s) (startTime s) (elapsedTime s)
               errors' correctCount')
      (app h).

(** The 100 ms interval of the elapsed-time effect. *)
Definition updateElapsed (now : Z) (s : State) : State :=
  if hasStarted s && negb (isComplete s) then
    match startTime s with
    | Some t0 =>
        mkState (currentIndex s) (typedChars s) (hasStarted s) (isComplete s)
                (startTime s) (now - t0) (errors s) (correctCount s)
    | None => s
    end
  else s.

Definition totalTyped (s : State) : Z := Z.of_nat (length (typedChars s)).

Definition wpm (s : State) : Q :=
  Stats.calculateWPM (inject_Z (correctCount s)) (inject_Z (elapsedTime s)).

Definition accuracy (s : State) : Q :=
  Stats.calculateAccuracy (inject_Z (correctCount s)) (inject_Z (totalTyped s)).

(** [getCharStatus(index)] for an array index. *)
Definition getCharStatus (s : State) (index : nat) : CharStatus :=
  match typedChars s !! index with
  | Some e => if correct e then st_correct else st_incorrect
  | None =>
      if Z.of_nat index =? currentIndex s then st_current else st_pending
  end.

(** Direct calls of the two handlers the hook returns. *)
Inductive Call :=
| KeyPress (key : string) (now : Z)
| Backspace.

Definition call (c : Call) (h : Hook H) : Hook H :=
  match c with
  | KeyPress key now => handleKeyPress key now h
  | Backspace => handleBackspace h
  end.

Definition calls (cs : list Call) (h : Hook H) : Hook H :=
  foldl (λ h c, call c h) h cs.

End WithText.

Definition start {H} (a : AppState H (gmap string nat)) : Hook H :=
  mkHook initial a.

(** The keystrokes of a sequence, each with the clock reading at which it
    is handled, as calls of [handleKeyPress]. *)
Definition keystrokes (keys : list (string * Z)) : list Call :=
  map (λ k, KeyPress k.1 k.2) keys.

End Session.

(** ** Keyboard input ([useKeyboardInput.js]) *)

Module Keyboard.

(** The fields of a DOM [keydown] event that the handler reads. *)
Record KeyboardEvent := mkKeyboardEvent {
  key : string;
  ctrlKey : bool;
  metaKey : bool;
  altKey : bool;
}.

Definition newline : string := String (Ascii.ascii_of_nat 10) EmptyString.

Definition modifierKeys : list string :=
  ["Shift"; "Control"; "Alt"; "Meta"; "CapsLock"; "Escape"].

(** [handleKeyDown] of [useKeyboardInput({ onKeyPress, onBackspace, enabled })];
    an absent callback is [None]. *)
Definition handleKeyDown {St : Type}
    (onKeyPress : option (string → St → St)) (onBackspace : option (St → St))
    (enabled : bool) (event : KeyboardEvent) (st : St) : St :=
  if negb enabled then st
  else if bool_decide (key event = "Tab") || bool_decide (key event = "F5") then st
  else if bool_decide (key event = "Backspace") then
    match onBackspace with
    | Some f => f st
    | None => st
    end
  else if bool_decide (key event ∈ modifierKeys) then st
  else if ctrlKey event || metaKey event || altKey event then st
  else
    let st1 :=
      if (String.length (key event) =? 1)%nat then
        match onKeyPress with
        | Some f => f (key event) st
        | None => st
        end
      else st in
    if bool_decide (key event = "Enter") then
      match onKeyPress with
      | Some f => f newline st1
      | None => st1
      end
    else st1.

End Keyboard.

(** ** The two screens ([LearningMode.jsx], [TestMode.jsx]) *)

Module LearningMode.
Import Session.

(** The [keydown] listener the screen installs; [now] is the clock reading
    when the event is handled. *)
Definition keydown {H} (text : string) (event : Keyboard.KeyboardEvent) (now : Z)
    (h : Hook H) : Hook H :=
  Keyboard.handleKeyDown
    (Some (λ key, handleKeyPress text key now))
    (Some (handleBackspace learning))
    (negb (isComplete (session h)))
    event h.

Definition keydowns {H} (text : string) (events : list (Keyboard.KeyboardEvent * Z))
    (h : Hook H) : Hook H :=
  foldl (λ h e, keydown text e.1 e.2 h) h events.

End LearningMode.

Module TestMode.
Import Session.

Definition TEST_DURATION : Z := 60.

(** The [keydown] listener the screen installs: no [onBackspace];
    [timerFinished] is [timer.isFinished]. *)
Definition keydown {H} (text : string) (timerFinished showResults : bool)
    (event : Keyboard.KeyboardEvent) (now : Z) (h : Hook H) : Hook H :=
  Keyboard.handleKeyDown
    (Some (λ key, handleKeyPress text key now))
    None
    (negb (isComplete (session h)) && negb timerFinished && negb showResults)
    event h.

End TestMode.

(** ** The countdown timer ([useTimer.js]) *)

Module Timer.

Record State := mkState {
  timeRemaining : Z;
  isRunning : bool;
  isFinished : bool;
}.

(** [useTimer(initialSeconds)] at the first render *)
Definition useTimer (initialSeconds : Z) : State :=
  mkState initialSeconds false false.

Definition start (t : State) : State :=
  if isRunning t || isFinished t then t
  else mkState (timeRemaining t) true (isFinished t).

Definition pause (t : State) : State :=
  mkState (timeRemaining t) false (isFinished t).

Definition reset (newTime : Z) (t : State) : State :=
  let t1 := pause t in
  mkState newTime (isRunning t1) false.

(** The effect keeps an interval alive exactly under this condition. *)
Definition intervalActive (t : State) : bool :=
  isRunning t && (0 <? timeRemaining t).

(** One firing of the interval callback, if an interval is alive. *)
Definition tick (t : State) : State :=
  if intervalActive t then
    if timeRemaining t <=? 1 then mkState 0 false true
    else mkState (timeRemaining t - 1) (isRunning t) (isFinished t)
  else t.

Inductive Event :=
| Start
| Pause
| Reset (newTime : Z)
| Tick.

Definition step (e : Event) (t : State) : State :=
  match e with
  | Start => start t
  | Pause => pause t
  | Reset newTime => reset newTime t
  | Tick => tick t
  end.

Definition run (es : list Event) (t : State) : State :=
  foldl (λ t e, step e t) t es.

(** [n] firings of the interval and nothing else. *)
Definition ticks (n : nat) (t : State) : State := run (replicate n Tick) t.

Definition noReset (es : list Event) : bool :=
  forallb (λ e, match e with Reset _ => false | _ => true end) es.

(** The states of a timer created with a non-negative duration: the
    remaining time is never negative and a finished timer stands at zero,
    not running. *)
Definition Good (t : State) : Prop :=
  0 ≤ timeRemaining t
  ∧ (isFinished t = true → timeRemaining t = 0 ∧ isRunning t = false).

(** Whether [step e] takes the timer from not finished to finished. *)
Definition finishes (e : Event) (t : State) : bool :=
  negb (isFinished t) && isFinished (step e t).

(** How many times the timer becomes finished along a run. *)
Fixpoint finishedTransitions (es : list Event) (t : State) : nat :=
  match es with
  | [] => 0
  | e :: es' =>
      ((if finishes e t then 1 else 0) + finishedTransitions es' (step e t))%nat
  end.

End Timer.

(** ** Invariants of the typing session *)

Module SessionInv.
Import Session.

Definition len (text : string) : Z := Z.of_nat (String.length text).

Definition countCorrect (l : list TypedChar) : nat :=
  length (List.filter correct l).

Definition countIncorrect (l : list TypedChar) : nat :=
  length (List.filter (λ e, negb (correct e)) l).

(** Every recorded entry is the comparison of the typed key with the
    character of [text] at the entry's position. *)
Definition consistent (text : string) (l : list TypedChar) : Prop :=
  ∀ i e, l !! i = Some e →
    expected e = Js.charAt text (Z.of_nat i)
    ∧ correct e = Js.strictEq (char e) (expected e).

(** What every interleaving of [handleKeyPress] and [handleBackspace]
    preserves, in either mode. *)
Record Inv (text : string) (s : State) : Prop := mkInv {
  inv_index : currentIndex s = Z.of_nat (length (typedChars s));
  inv_correct : correctCount s = Z.of_nat (countCorrect (typedChars s));
  inv_errors : errors s = Z.of_nat (countIncorrect (typedChars s));
  inv_bound : currentIndex s ≤ len text;
  inv_open : isComplete s = false → Js.isEmpty text = false →
             currentIndex s < len text;
  inv_started : 0 < currentIndex s → hasStarted s = true;
  inv_entries : consistent text (typedChars s);
}.

(** Completion is terminal: the cursor stays at the end of the text. *)
Definition Terminal (text : string) (s : State) : Prop :=
  isComplete s = true → currentIndex s = len text.

End SessionInv.

(** ** More JavaScript library functions *)

Module JsLib.

(** [arr.indexOf(x)]: the first position of [x], [-1] when absent. *)
Fixpoint indexOf (l : list string) (x : string) : Z :=
  match l with
  | [] => -1
  | y :: l' =>
      if bool_decide (y = x) then 0
      else let i := indexOf l' x in if i <? 0 then -1 else i + 1
  end.

(** [arr[i]] for an integer [i]: [None] is [undefined]. *)
Definition at_ {A} (l : list A) (i : Z) : option A :=
  if i <? 0 then None else l !! Z.to_nat i.

(** [arr.sort(cmp)]: a stable sort; [x] stays in front of [y] when
    [cmp(x, y) <= 0]. *)
Fixpoint insertSorted {A} (cmp : A → A → Z) (x : A) (sorted : list A) : list A :=
  match sorted with
  | [] => [x]
  | y :: rest =>
      if cmp x y <=? 0 then x :: y :: rest
      else y :: insertSorted cmp x rest
  end.

Definition sort {A} (cmp : A → A → Z) (l : list A) : list A :=
  foldr (insertSorted cmp) [] l.

(** [[...new Set(arr)]]: the distinct elements in the order of their first
    occurrence. *)
Fixpoint distinctFrom (seen l : list string) : list string :=
  match l with
  | [] => []
  | x :: l' =>
      if bool_decide (x ∈ seen) then distinctFrom seen l'
      else x :: distinctFrom (x :: seen) l'
  end.

Definition distinct (l : list string) : list string := distinctFrom [] l.


(** [Math.max(x, ...rest)] *)
Definition Math_max (x : Q) (rest : list Q) : Q := foldl Qmax x rest.

End JsLib.

(** ** Session records and analytics ([statsCalculator.js]) *)

Module Analytics.

(** A record of the history, as the two screens build it ([duration] is
    written by the test screen only). *)
Record SessionRecord := mkSessionRecord {
  timestamp : string;
  mode : string;
  difficulty : string;
  wpm : Q;
  accuracy : Q;
  totalChars : Z;
  errors : Z;
  exerciseId : option Z;
  duration : option Z;
}.

Definition calculateErrorRate (errors totalChars : Q) : Q :=
  if Qle_bool totalChars 0 then 0%Q
  else
    Double.div
      (inject_Z (Js.Math_round
         (Double.mul (Double.mul (Double.div errors totalChars) 100) 10))) 10.

(** The five objects [getPerformanceRating] can return; the [emoji] field
    is decoration and not modelled. *)
Inductive Rating := Excellent | Great | Good | Fair | KeepPracticing.

Definition label (r : Rating) : string :=
  match r with
  | Excellent => "Excellent"
  | Great => "Great"
  | Good => "Good"
  | Fair => "Fair"
  | KeepPracticing => "Keep Practicing"
  end.

Definition color (r : Rating) : string :=
  match r with
  | Excellent => "text-green-500"
  | Great => "text-blue-500"
  | Good => "text-yellow-500"
  | Fair => "text-orange-500"
  | KeepPracticing => "text-red-500"
  end.

Definition getPerformanceRating (wpm accuracy : Q) : Rating :=
  if Qle_bool 95 accuracy && Qle_bool 60 wpm then Excellent
  else if Qle_bool 90 accuracy && Qle_bool 45 wpm then Great
  else if Qle_bool 85 accuracy && Qle_bool 30 wpm then Good
  else if Qle_bool 80 accuracy && Qle_bool 20 wpm then Fair
  else KeepPracticing.

(** Position of a rating on the ladder, higher is better. *)
Definition rank (r : Rating) : nat :=
  match r with
  | Excellent => 4
  | Great => 3
  | Good => 2
  | Fair => 1
  | KeepPracticing => 0
  end.

Definition difficultyOrder : list string :=
  ["Beginner"; "Easy"; "Intermediate"; "Advanced"; "Expert"].

(** The object [getDifficultyRecommendation] returns, without its
    [message] (a sentence for display built with [toFixed]). *)
Record Recommendation := mkRecommendation {
  recommendation : string;
  nextDifficulty : option string;
  reason : string;
}.

(** [arr.reduce((sum, s) => sum + f(s), 0)] *)
Definition sumOf {A} (f : A → Q) (l : list A) : Q :=
  foldl (λ sum s, Double.add sum (f s)) 0%Q l.

Definition sumOfZ {A} (f : A → Z) (l : list A) : Z :=
  foldl (λ sum s, sum + f s) 0 l.

Definition getDifficultyRecommendation (recentSessions : list SessionRecord)
    (currentDifficulty : string) : Recommendation :=
  if (length recentSessions <? 3)%nat then
    mkRecommendation "continue" None "Need more data"
  else
    let n := inject_Z (Z.of_nat (length recentSessions)) in
    let avgAccuracy := Double.div (sumOf accuracy recentSessions) n in
    let avgWPM := Double.div (sumOf wpm recentSessions) n in
    let currentIndex := JsLib.indexOf difficultyOrder currentDifficulty in
    if Qle_bool 90 avgAccuracy && Qle_bool 40 avgWPM then
      if currentIndex <? Z.of_nat (length difficultyOrder) - 1 then
        mkRecommendation "increase"
          (JsLib.at_ difficultyOrder (currentIndex + 1))
          "High accuracy and speed"
      else mkRecommendation "continue" None "Already at highest level"
    else if negb (Qle_bool 70 avgAccuracy) then
      if 0 <? currentIndex then
        mkRecommendation "decrease"
          (JsLib.at_ difficultyOrder (currentIndex - 1))
          "Low accuracy"
      else mkRecommendation "continue" None "At beginner level, needs more practice"
    else mkRecommendation "continue" None "Moderate performance".

(** [getTopMistypedKeys]; [entries] is [Object.entries(mistypedKeys)], in
    the order the engine lists the properties. *)
Definition getTopMistypedKeys (entries : list (string * nat)) (n : nat)
  : list (string * nat) :=
  Js.sliceTo n
    (JsLib.sort (λ a b, Z.of_nat b.2 - Z.of_nat a.2) entries).

(** The [sessions] field of [calculateTrends(history, limit)], from which
    [wpmData] and [accuracyData] are mapped. *)
Definition trendSessions (history : list SessionRecord) (limit : nat)
  : list SessionRecord :=
  rev (Js.sliceTo limit history).

Definition trendWpmData (history : list SessionRecord) (limit : nat) : list Q :=
  wpm <$> trendSessions history limit.

Definition trendAccuracyData (history : list SessionRecord) (limit : nat) : list Q :=
  accuracy <$> trendSessions history limit.

(** The object [getStatsSummary] returns; [totalTime] is set in the
    empty case only.  [sumChars] and [sumErrors] are its [totalChars] and
    [totalErrors], named apart from the fields of a session record. *)
Record Summary := mkSummary {
  totalSessions : Z;
  totalTime : option Q;
  avgWPM : Q;
  avgAccuracy : Q;
  bestWPM : Q;
  bestAccuracy : Q;
  sumChars : Z;
  sumErrors : Z;
}.

(** [Math.round(x * 10) / 10] *)
Definition round1 (x : Q) : Q :=
  Double.div (inject_Z (Js.Math_round (Double.mul x 10))) 10.

Definition getStatsSummary (history : list SessionRecord) : Summary :=
  match history with
  | [] => mkSummary 0 (Some 0%Q) 0 0 0 0 0 0
  | s :: rest =>
      let totalSessions := Z.of_nat (length history) in
      let totalChars := sumOfZ totalChars history in
      let totalErrors := sumOfZ errors history in
      let avgWPM := Double.div (sumOf wpm history) (inject_Z totalSessions) in
      let avgAccuracy := Double.div (sumOf accuracy history) (inject_Z totalSessions) in
      let bestWPM := JsLib.Math_max (wpm s) (wpm <$> rest) in
      let bestAccuracy := JsLib.Math_max (accuracy s) (accuracy <$> rest) in
      mkSummary totalSessions None
        (round1 avgWPM) (round1 avgAccuracy) (round1 bestWPM) (round1 bestAccuracy)
        totalChars totalErrors
  end.

End Analytics.

(** ** Exercises ([csvLoader.js]) *)

Module Csv.

Record Exercise := mkExercise {
  id : Z;
  text : string;
  sourceFile : string;
  score : Q;
  uniqueCharScore : Q;
  difficultyIndex : Q;
  difficulty : string;
  exerciseId : Z;
}.

Definition getExercisesByDifficulty (exercises : list Exercise) (level : string)
  : list Exercise :=
  List.filter (λ ex, bool_decide (difficulty ex = level)) exercises.

(** [getRandomExercise]; [random] is the value of [Math.random()];
    [None] is [null]. *)
Definition getRandomExercise (exercises : list Exercise) (level : string)
    (random : Q) : option Exercise :=
  let filtered := getExercisesByDifficulty exercises level in
  if (length filtered =? 0)%nat then None
  else
    let randomIndex := Qfloor (random * inject_Z (Z.of_nat (length filtered))) in
    JsLib.at_ filtered randomIndex.

Definition getDifficultyLevels (exercises : list Exercise) : list string :=
  let levels := JsLib.distinct (difficulty <$> exercises) in
  JsLib.sort
    (λ a b, JsLib.indexOf Analytics.difficultyOrder a
            - JsLib.indexOf Analytics.difficultyOrder b)
    levels.

End Csv.

(** ** More of the hooks *)

Module SessionView.
Import Session.

(** [progress] of [useTypingSession] *)
Definition progress (text : string) (s : State) : Q :=
  if Js.isEmpty text then 0%Q
  else (inject_Z (currentIndex s) / inject_Z (Z.of_nat (String.length text)) * 100)%Q.

(** The characters of a text, each as a one-character string: the keys
    that type it without a mistake. *)
Fixpoint chars (text : string) : list string :=
  match text with
  | EmptyString => []
  | String c rest => String c EmptyString :: chars rest
  end.

(** The number of recorded mistakes whose expected character is [k]. *)
Definition mistakesAt (k : string) (l : list TypedChar) : nat :=
  length (List.filter
            (λ e, negb (correct e) && bool_decide (Js.propertyKey (expected e) = k)) l).

End SessionView.

Module TimerView.
Import Timer.



(** [progress] of [useTimer(initialSeconds)] *)
Definition progress (initialSeconds : Z) (t : State) : Q :=
  (inject_Z (initialSeconds - timeRemaining t) / inject_Z initialSeconds * 100)%Q.

(** How many ticks of a run find an interval alive. *)
Fixpoint effectiveTicks (es : list Event) (t : State) : Z :=
  match es with
  | [] => 0
  | e :: es' =>
      (match e with
       | Tick => if intervalActive t then 1 else 0
       | _ => 0
       end) + effectiveTicks es' (step e t)
  end.

End TimerView.

(** ** The test screen as a whole ([TestMode.jsx]) *)

Module TestScreen.
Import Store Session.

(** The hooks of the screen: the typing session (with the store), the
    countdown timer and the [showResults] cell. *)
Record State := mkState {
  hook : Hook (list Analytics.SessionRecord);
  timer : Timer.State;
  showResults : bool;
}.

Section Screen.
(** [state.currentExercise.text], [state.difficulty] and
    [state.currentExercise?.id] *)
Variable text : string.
Variable difficulty : string.
Variable exerciseId : option Z.

Definition initial (a : AppState (list Analytics.SessionRecord) (gmap string nat))
  : State :=
  mkState (start a) (Timer.useTimer TestMode.TEST_DURATION) false.

(** The record handed to [actions.addHistory]; [date] is
    [new Date().toISOString()]. *)
Definition historyRecord (date : string) (st : State) : Analytics.SessionRecord :=
  let s := session (hook st) in
  Analytics.mkSessionRecord date "test" difficulty
    (wpm s) (accuracy s) (totalTyped s) (errors s) exerciseId
    (Some (if Timer.isFinished (timer st) then TestMode.TEST_DURATION * 1000
           else elapsedTime s)).

(** The two effects of the screen, run on the values of one render: start
    the timer when typing begins; save the session and show the results when
    the timer finishes or the exercise completes. *)
Definition effects (date : string) (st : State) : State :=
  let s := session (hook st) in
  let timer' :=
    if hasStarted s && negb (Timer.isRunning (timer st))
       && negb (Timer.isFinished (timer st))
    then Timer.start (timer st) else timer st in
  if (Timer.isFinished (timer st) || isComplete s) && hasStarted s
     && negb (showResults st)
  then mkState (mkHook s (ADD_HISTORY (historyRecord date st) (app (hook st))))
               timer' true
  else mkState (hook st) timer' (showResults st).

(** What can happen to the screen: a key event, a tick of the countdown,
    a tick of the elapsed-time interval, the restart button. *)
Inductive Event :=
| KeyDown (event : Keyboard.KeyboardEvent) (now : Z)
| TimerTick
| ElapsedTick (now : Z)
| Restart.

Definition handle (e : Event) (st : State) : State :=
  match e with
  | KeyDown event now =>
      mkState
        (TestMode.keydown text (Timer.isFinished (timer st)) (showResults st)
           event now (hook st))
        (timer st) (showResults st)
  | TimerTick => mkState (hook st) (Timer.tick (timer st)) (showResults st)
  | ElapsedTick now =>
      mkState (mkHook (updateElapsed now (session (hook st))) (app (hook st)))
              (timer st) (showResults st)
  | Restart =>
      mkState (reset (hook st)) (Timer.reset TestMode.TEST_DURATION (timer st)) false
  end.

(** One event, then the effects of the render that follows it. *)
Definition step (e : Event * string) (st : State) : State :=
  effects e.2 (handle e.1 st).

Definition run (es : list (Event * string)) (st : State) : State :=
  foldl (λ st e, step e st) st es.

Definition noRestart (es : list (Event * string)) : bool :=
  forallb (λ e, match e.1 with Restart => false | _ => true end) es.

(** What holds between events on the test screen. *)
Record Settled (st : State) : Prop := mkSettled {
  settled_results :
    showResults st
    = hasStarted (session (hook st))
      && (Timer.isFinished (timer st) || isComplete (session (hook st)));
  settled_timer :
    hasStarted (session (hook st)) = true →
    Timer.isRunning (timer st) = true ∨ Timer.isFinished (timer st) = true;
  settled_idle :
    hasStarted (session (hook st)) = false →
    timer st = Timer.useTimer TestMode.TEST_DURATION;
  settled_finished :
    Timer.isFinished (timer st) = true → Timer.isRunning (timer st) = false;
}.

End Screen.

(** What a test screen that shows its results has written to the history
    [before]: one record of the session on the screen. *)
Definition Recorded (before : list Analytics.SessionRecord) (st : State) : Prop :=
  ∃ r, history (app (hook st)) = take 100 (r :: before)
       ∧ Analytics.mode r = "test"
       ∧ Analytics.errors r = errors (session (hook st))
       ∧ Analytics.totalChars r = totalTyped (session (hook st))
       ∧ (Analytics.duration r = Some 60000
          ∨ isComplete (session (hook st)) = true
            ∧ Analytics.duration r = Some (elapsedTime (session (hook st)))).

End TestScreen.

(** ** The metrics as the specification words them *)

Module Spec.

(** [round10(x) = round(x*10)/10] (one decimal place) *)
Definition round10 (x : Q) : Q :=
  Double.div (inject_Z (Js.Math_round (Double.mul x 10))) 10.

(** The rate before rounding, [(correctChars / 5) / (elapsedMs / 60000)]. *)
Definition rate (correctChars elapsedMs : Q) : Q :=
  Double.div (Double.div correctChars 5) (Double.div elapsedMs 60000).

(** [wpm(correctChars, elapsedMs)]: 0 if [elapsedMs <= 0], otherwise
    [round10((correctChars / 5) / (elapsedMs / 60000))] *)
Definition wpm (correctChars elapsedMs : Q) : Q :=
  if Qle_bool elapsedMs 0 then 0%Q
  else round10 (rate correctChars elapsedMs).

End Spec.

(** * Proofs *)

(** ** Rounding to the nearest double *)

Section DoubleFacts.
Import Double.
Local Open Scope Q_scope.

Lemma pow2_pos (k : Z) : 0 < 2 ^ k.
Proof. apply Qpower_0_lt. reflexivity. Qed.

Lemma pow2_succ (k : Z) : 2 ^ (k + 1) == 2 * 2 ^ k.
Proof. rewrite Qpower_plus by discriminate. rewrite Qpower_1_r. ring. Qed.

Lemma pow2_pred (k : Z) : 2 ^ k == 2 * 2 ^ (k - 1).
Proof. rewrite <- pow2_succ. replace (k - 1 + 1)%Z with k by lia. reflexivity. Qed.

Lemma pow2_le (n m : Z) : (n <= m)%Z → 2 ^ n <= 2 ^ m.
Proof. intros H. apply Qpower_le_compat_l; [exact H|discriminate]. Qed.

Lemma pow2_lt_inv (n m : Z) : 2 ^ n < 2 ^ m → (n < m)%Z.
Proof. intros H. apply (Qpower_lt_compat_l_inv 2); [exact H|reflexivity]. Qed.

Lemma pow2_inject (n : Z) : (0 <= n)%Z → inject_Z (2 ^ n) == 2 ^ n.
Proof. intros H. rewrite Zpower_Qpower by exact H. reflexivity. Qed.

Lemma frac_lt (a b c d : Q) : 0 < b → 0 < d → a * d < c * b → a / b < c / d.
Proof.
  intros Hb Hd H. apply Qlt_shift_div_r; [exact Hb|].
  assert (c / d * b == c * b / d) as -> by (field; lra).
  apply Qlt_shift_div_l; [exact Hd|exact H].
Qed.

Lemma Qcompare_Lt (x y : Q) : x < y → Qcompare x y = Lt.
Proof. intros H. exact (proj1 (Qlt_alt x y) H). Qed.

Lemma Qcompare_Gt (x y : Q) : y < x → Qcompare x y = Gt.
Proof. intros H. exact (proj1 (Qgt_alt x y) H). Qed.

Lemma Qcompare_Eq (x y : Q) : x == y → Qcompare x y = Eq.
Proof. intros H. exact (proj1 (Qeq_alt x y) H). Qed.

Lemma Qcompare_cases (x y : Q) :
  (x < y ∧ Qcompare x y = Lt) ∨ (x == y ∧ Qcompare x y = Eq)
  ∨ (y < x ∧ Qcompare x y = Gt).
Proof.
  destruct (Q_dec x y) as [[H|H]|H].
  - left. split; [exact H|apply Qcompare_Lt; exact H].
  - right; right. split; [exact H|apply Qcompare_Gt; exact H].
  - right; left. split; [exact H|apply Qcompare_Eq; exact H].
Qed.

Lemma ilog2_rough (a : Q) :
  0 < a →
  let k := (Z.log2 (Qnum a) - Z.log2 (Zpos (Qden a)))%Z in
  2 ^ (k - 1) < a ∧ a < 2 ^ (k + 1).
Proof.
  intros Ha k. destruct a as [N D]. cbn [Qnum Qden] in k.
  assert (0 < N)%Z as HN.
  { unfold Qlt in Ha. cbn in Ha. lia. }
  pose proof (Z.log2_spec N HN) as [HN1 HN2].
  pose proof (Z.log2_spec (Zpos D) ltac:(lia)) as [HD1 HD2].
  pose proof (Z.log2_nonneg N) as HnN. pose proof (Z.log2_nonneg (Zpos D)) as HnD.
  set (n := Z.log2 N) in *. set (d := Z.log2 (Zpos D)) in *.
  rewrite Zle_Qle, pow2_inject in HN1, HD1 by lia.
  rewrite Zlt_Qlt, pow2_inject in HN2, HD2 by lia.
  rewrite (Qmake_Qdiv N D).
  assert (0 < inject_Z (Zpos D)) as HDpos by reflexivity.
  replace (Z.succ n) with (n + 1)%Z in HN2 by lia.
  replace (Z.succ d) with (d + 1)%Z in HD2 by lia.
  rewrite pow2_succ in HN2, HD2.
  assert (2 ^ (k + 1) == 2 * 2 ^ n / 2 ^ d) as E1.
  { rewrite pow2_succ. unfold k. rewrite Qpower_minus by discriminate.
    field. apply Qpower_not_0. discriminate. }
  assert (2 ^ (k - 1) == 2 ^ n / (2 * 2 ^ d)) as E2.
  { assert (2 * 2 ^ (k - 1) == 2 ^ n / 2 ^ d) as E.
    { rewrite <- pow2_pred. unfold k. rewrite Qpower_minus by discriminate.
      reflexivity. }
    assert (2 ^ n / (2 * 2 ^ d) == (2 ^ n / 2 ^ d) / 2) as ->.
    { field. apply Qpower_not_0. discriminate. }
    rewrite <- E. field. }
  pose proof (pow2_pos n) as Pn. pose proof (pow2_pos d) as Pd.
  set (x := 2 ^ n) in *. set (y := 2 ^ d) in *.
  set (qN := inject_Z N) in *. set (qD := inject_Z (Zpos D)) in *.
  split.
  - rewrite E2. apply frac_lt; [lra|lra|]. nra.
  - rewrite E1. apply frac_lt; [lra|lra|]. nra.
Qed.

Lemma ilog2_spec (a : Q) : 0 < a → 2 ^ ilog2 a <= a ∧ a < 2 ^ (ilog2 a + 1).
Proof.
  intros Ha. destruct (ilog2_rough a Ha) as [Hlo Hhi]. unfold ilog2.
  set (k := (Z.log2 (Qnum a) - Z.log2 (Zpos (Qden a)))%Z) in *.
  destruct (Qle_bool (2 ^ k) a) eqn:E.
  - apply Qle_bool_iff in E. split; assumption.
  - replace (k - 1 + 1)%Z with k by lia. split; [lra|].
    apply Qnot_le_lt. intros H. apply Qle_bool_iff in H. congruence.
Qed.

Lemma ilog2_unique (a : Q) (k : Z) :
  0 < a → 2 ^ k <= a → a < 2 ^ (k + 1) → ilog2 a = k.
Proof.
  intros Ha Hlo Hhi. destruct (ilog2_spec a Ha) as [Slo Shi].
  assert (2 ^ ilog2 a < 2 ^ (k + 1)) as H1 by lra.
  assert (2 ^ k < 2 ^ (ilog2 a + 1)) as H2 by lra.
  apply pow2_lt_inv in H1, H2. lia.
Qed.

Lemma ilog2_Qeq (a b : Q) : 0 < a → a == b → ilog2 a = ilog2 b.
Proof.
  intros Ha E. assert (0 < b) as Hb by lra.
  destruct (ilog2_spec b Hb) as [Slo Shi]. apply ilog2_unique; lra.
Qed.

Lemma ilog2_mono (a b : Q) : 0 < a → a <= b → (ilog2 a <= ilog2 b)%Z.
Proof.
  intros Ha Hab. assert (0 < b) as Hb by lra.
  destruct (ilog2_spec a Ha) as [Alo Ahi]. destruct (ilog2_spec b Hb) as [Blo Bhi].
  assert (2 ^ ilog2 a < 2 ^ (ilog2 b + 1)) as H by lra.
  apply pow2_lt_inv in H. lia.
Qed.

Lemma roundHalfEven_bounds (m : Q) :
  (Qfloor m <= roundHalfEven m ∧ roundHalfEven m <= Qfloor m + 1)%Z.
Proof.
  unfold roundHalfEven.
  destruct (Qcompare _ _); [destruct (Z.even _)| |]; lia.
Qed.

Lemma roundHalfEven_integer (n : Z) : roundHalfEven (inject_Z n) = n.
Proof.
  unfold roundHalfEven. rewrite Qfloor_Z.
  assert (inject_Z n - inject_Z n < 1 # 2) as H by lra.
  rewrite (Qcompare_Lt _ _ H). reflexivity.
Qed.

Lemma roundHalfEven_Qeq (m m' : Q) : m == m' → roundHalfEven m = roundHalfEven m'.
Proof.
  intros E. unfold roundHalfEven. rewrite (Qfloor_comp _ _ E).
  assert (m - inject_Z (Qfloor m') == m' - inject_Z (Qfloor m')) as E' by lra.
  rewrite (Qcompare_comp _ _ E' (1 # 2) (1 # 2) (Qeq_refl _)). reflexivity.
Qed.

Lemma roundHalfEven_mono (x y : Q) : x <= y → (roundHalfEven x <= roundHalfEven y)%Z.
Proof.
  intros Hxy. pose proof (Qfloor_resp_le _ _ Hxy) as Hf.
  pose proof (roundHalfEven_bounds x) as Bx. pose proof (roundHalfEven_bounds y) as By.
  destruct (Z.eq_dec (Qfloor x) (Qfloor y)) as [E|NE]; [|lia].
  unfold roundHalfEven. rewrite <- E.
  destruct (Qcompare_cases (x - inject_Z (Qfloor x)) (1 # 2))
    as [[Hx ->]|[[Hx ->]|[Hx ->]]];
    destruct (Qcompare_cases (y - inject_Z (Qfloor x)) (1 # 2))
      as [[Hy ->]|[[Hy ->]|[Hy ->]]];
    try (destruct (Z.even (Qfloor x))); try lia; exfalso; lra.
Qed.

Lemma roundHalfEven_ge (n : Z) (m : Q) : inject_Z n <= m → (n <= roundHalfEven m)%Z.
Proof. intros H. apply roundHalfEven_mono in H. rewrite roundHalfEven_integer in H. exact H. Qed.

Lemma roundHalfEven_le (n : Z) (m : Q) : m <= inject_Z n → (roundHalfEven m <= n)%Z.
Proof. intros H. apply roundHalfEven_mono in H. rewrite roundHalfEven_integer in H. exact H. Qed.

Lemma exponent_spec (a : Q) :
  0 < a →
  2 ^ exponent a <= a ∨ exponent a = (-1074)%Z.
Proof.
  intros Ha. unfold exponent. destruct (ilog2_spec a Ha) as [Hlo _].
  destruct (Z.max_spec (ilog2 a - 52) (-1074)) as [[_ ->]|[_ ->]]; [right; reflexivity|left].
  pose proof (pow2_le (ilog2 a - 52) (ilog2 a) ltac:(lia)). lra.
Qed.

Lemma exponent_mono (a b : Q) : 0 < a → a <= b → (exponent a <= exponent b)%Z.
Proof. intros Ha Hab. pose proof (ilog2_mono a b Ha Hab). unfold exponent. lia. Qed.

Lemma exponent_Qeq (a b : Q) : 0 < a → a == b → exponent a = exponent b.
Proof. intros Ha E. unfold exponent. rewrite (ilog2_Qeq a b Ha E). reflexivity. Qed.

Lemma scaled_lt (a : Q) : 0 < a → a / 2 ^ exponent a < 2 ^ 53.
Proof.
  intros Ha. destruct (ilog2_spec a Ha) as [_ Hhi].
  pose proof (pow2_pos (exponent a)) as He.
  apply Qlt_shift_div_r; [exact He|].
  rewrite <- Qpower_plus by discriminate.
  pose proof (pow2_le (ilog2 a + 1) (53 + exponent a) ltac:(unfold exponent; lia)). lra.
Qed.

Lemma scaled_ge (a : Q) :
  0 < a → (-1074 < exponent a)%Z → 2 ^ 52 <= a / 2 ^ exponent a.
Proof.
  intros Ha Hn. destruct (ilog2_spec a Ha) as [Hlo _].
  pose proof (pow2_pos (exponent a)) as He.
  apply Qle_shift_div_l; [exact He|].
  rewrite <- Qpower_plus by discriminate.
  pose proof (pow2_le (52 + exponent a) (ilog2 a) ltac:(unfold exponent in *; lia)). lra.
Qed.

Lemma magnitude_Qeq (a b : Q) : 0 < a → a == b → magnitude a == magnitude b.
Proof.
  intros Ha E. unfold magnitude. rewrite (exponent_Qeq a b Ha E).
  rewrite (roundHalfEven_Qeq (a / 2 ^ exponent b) (b / 2 ^ exponent b)); [reflexivity|].
  rewrite E. reflexivity.
Qed.

Lemma magnitude_nonneg (a : Q) : 0 < a → 0 <= magnitude a.
Proof.
  intros Ha. unfold magnitude. pose proof (pow2_pos (exponent a)) as He.
  apply Qmult_le_0_compat; [|lra].
  change 0 with (inject_Z 0). rewrite <- Zle_Qle. apply roundHalfEven_ge.
  change (inject_Z 0) with 0. apply Qle_shift_div_l; [exact He|lra].
Qed.

Lemma magnitude_positive (a : Q) : 2 ^ (-1074) <= a → 0 < magnitude a.
Proof.
  intros Hmin. pose proof (pow2_pos (-1074)) as Hp.
  assert (0 < a) as Ha by lra.
  unfold magnitude. pose proof (pow2_pos (exponent a)) as He.
  apply Qmult_lt_0_compat; [|exact He].
  change 0 with (inject_Z 0). rewrite <- Zlt_Qlt.
  assert (1 <= roundHalfEven (a / 2 ^ exponent a))%Z; [|lia].
  apply roundHalfEven_ge. change (inject_Z 1) with 1.
  apply Qle_shift_div_l; [exact He|].
  destruct (exponent_spec a Ha) as [H| ->]; lra.
Qed.

Lemma magnitude_mono (a b : Q) : 0 < a → a <= b → magnitude a <= magnitude b.
Proof.
  intros Ha Hab. assert (0 < b) as Hb by lra.
  pose proof (exponent_mono a b Ha Hab) as He.
  unfold magnitude.
  pose proof (pow2_pos (exponent a)) as Pa. pose proof (pow2_pos (exponent b)) as Pb.
  destruct (Z.eq_dec (exponent a) (exponent b)) as [E|NE].
  - rewrite E in *. apply Qmult_le_compat_r; [|lra].
    rewrite <- Zle_Qle. apply roundHalfEven_mono.
    unfold Qdiv. apply Qmult_le_compat_r; [exact Hab|].
    apply Qinv_le_0_compat. lra.
  - assert (exponent a + 1 <= exponent b)%Z as Hlt by lia.
    assert (-1074 < exponent b)%Z as Hnorm by (unfold exponent in *; lia).
    pose proof (scaled_lt a Ha) as Hma. pose proof (scaled_ge b Hb Hnorm) as Hmb.
    assert (roundHalfEven (a / 2 ^ exponent a) <= 2 ^ 53)%Z as Hna.
    { apply roundHalfEven_le. rewrite pow2_inject by lia. lra. }
    assert (2 ^ 52 <= roundHalfEven (b / 2 ^ exponent b))%Z as Hnb.
    { apply roundHalfEven_ge. rewrite pow2_inject by lia. exact Hmb. }
    rewrite Zle_Qle, pow2_inject in Hna, Hnb by lia.
    set (na := inject_Z (roundHalfEven (a / 2 ^ exponent a))) in *.
    set (nb := inject_Z (roundHalfEven (b / 2 ^ exponent b))) in *.
    pose proof (pow2_le (exponent a + 1) (exponent b) Hlt) as Hp.
    rewrite pow2_succ in Hp.
    assert (2 ^ 53 == 2 * 2 ^ 52) as E53 by reflexivity.
    pose proof (pow2_pos 52) as P52.
    set (x := 2 ^ exponent a) in *. set (y := 2 ^ exponent b) in *.
    set (t := 2 ^ 52) in *. set (u := 2 ^ 53) in *.
    apply Qle_trans with (u * x); [nra|].
    apply Qle_trans with (t * y); nra.
Qed.

Lemma magnitude_integer (n : Z) :
  (0 < n)%Z → (n < 2 ^ 53)%Z → magnitude (inject_Z n) == inject_Z n.
Proof.
  intros Hn Hmax.
  assert (0 < inject_Z n) as Ha.
  { change 0 with (inject_Z 0). rewrite <- Zlt_Qlt. exact Hn. }
  set (e := exponent (inject_Z n)).
  assert (e <= 0)%Z as He.
  { destruct (ilog2_spec _ Ha) as [Hlo _].
    assert (inject_Z n < 2 ^ 53) as Hlt.
    { rewrite <- (pow2_inject 53) by lia. rewrite <- Zlt_Qlt. exact Hmax. }
    assert (2 ^ ilog2 (inject_Z n) < 2 ^ 53) as H by lra.
    apply pow2_lt_inv in H. unfold e, exponent. lia. }
  unfold magnitude. fold e.
  assert (/ 2 ^ e == inject_Z (2 ^ (- e))%Z) as Einv.
  { rewrite pow2_inject by lia. rewrite Qpower_opp. reflexivity. }
  rewrite (roundHalfEven_Qeq _ (inject_Z (n * 2 ^ (- e))%Z)).
  - rewrite roundHalfEven_integer. rewrite inject_Z_mult, <- Einv.
    field. apply Qpower_not_0. discriminate.
  - unfold Qdiv. rewrite Einv, inject_Z_mult. reflexivity.
Qed.

Lemma round_zero (x : Q) : x == 0 → round x = 0.
Proof. intros E. unfold round. rewrite (Qcompare_Eq _ _ E). reflexivity. Qed.

Lemma round_pos (x : Q) : 0 < x → round x == magnitude x.
Proof.
  intros H. unfold round. rewrite (Qcompare_Gt _ _ H). apply Qred_correct.
Qed.

Lemma round_neg (x : Q) : x < 0 → round x == - magnitude (- x).
Proof.
  intros H. unfold round. rewrite (Qcompare_Lt _ _ H). apply Qred_correct.
Qed.

Lemma round_cases (x : Q) :
  (x == 0 ∧ round x = 0) ∨ (0 < x ∧ round x == magnitude x)
  ∨ (x < 0 ∧ round x == - magnitude (- x)).
Proof.
  destruct (Q_dec x 0) as [[H|H]|H].
  - right; right. split; [exact H|apply round_neg; exact H].
  - right; left. split; [exact H|apply round_pos; exact H].
  - left. split; [exact H|apply round_zero; exact H].
Qed.

Global Instance round_Proper : Proper (Qeq ==> Qeq) round.
Proof.
  intros x y E.
  destruct (round_cases x) as [[Hx Rx]|[[Hx Rx]|[Hx Rx]]].
  - rewrite Rx. rewrite round_zero; [reflexivity|lra].
  - rewrite Rx, round_pos by lra. apply magnitude_Qeq; assumption.
  - rewrite Rx, round_neg by lra. apply Qopp_comp.
    apply magnitude_Qeq; lra.
Qed.

Lemma round_nonneg (x : Q) : 0 <= x → 0 <= round x.
Proof.
  intros H. destruct (round_cases x) as [[Hx Rx]|[[Hx Rx]|[Hx Rx]]].
  - rewrite Rx. lra.
  - rewrite Rx. apply magnitude_nonneg. exact Hx.
  - lra.
Qed.

Lemma round_nonpos (x : Q) : x <= 0 → round x <= 0.
Proof.
  intros H. destruct (round_cases x) as [[Hx Rx]|[[Hx Rx]|[Hx Rx]]].
  - rewrite Rx. lra.
  - lra.
  - rewrite Rx. pose proof (magnitude_nonneg (- x) ltac:(lra)). lra.
Qed.

Lemma round_mono (x y : Q) : x <= y → round x <= round y.
Proof.
  intros Hxy.
  destruct (round_cases x) as [[Hx Rx]|[[Hx Rx]|[Hx Rx]]].
  - rewrite Rx. apply round_nonneg. lra.
  - rewrite Rx, round_pos by lra. apply magnitude_mono; assumption.
  - destruct (Qlt_le_dec y 0) as [Hy|Hy].
    + rewrite Rx, round_neg by exact Hy.
      pose proof (magnitude_mono (- y) (- x) ltac:(lra) ltac:(lra)). lra.
    + pose proof (round_nonpos x ltac:(lra)). pose proof (round_nonneg y Hy). lra.
Qed.

Lemma round_positive (x : Q) : 2 ^ (-1074) <= x → 0 < round x.
Proof.
  intros H. pose proof (pow2_pos (-1074)).
  rewrite round_pos by lra. apply magnitude_positive. exact H.
Qed.

Lemma round_integer (n : Z) :
  (- 2 ^ 53 < n)%Z → (n < 2 ^ 53)%Z → round (inject_Z n) == inject_Z n.
Proof.
  intros Hlo Hhi. destruct (Z.lt_trichotomy n 0) as [H|[->|H]].
  - rewrite round_neg.
    + rewrite <- inject_Z_opp. rewrite magnitude_integer by lia.
      rewrite inject_Z_opp. ring.
    + change 0 with (inject_Z 0). rewrite <- Zlt_Qlt. exact H.
  - reflexivity.
  - rewrite round_pos.
    + apply magnitude_integer; lia.
    + change 0 with (inject_Z 0). rewrite <- Zlt_Qlt. exact H.
Qed.

Lemma roundHalfEven_error (m : Q) :
  m - (1 # 2) <= inject_Z (roundHalfEven m) ∧ inject_Z (roundHalfEven m) <= m + (1 # 2).
Proof.
  unfold roundHalfEven.
  pose proof (Qfloor_le m) as Hle. pose proof (Qlt_floor m) as Hlt.
  rewrite inject_Z_plus in Hlt. change (inject_Z 1) with 1 in Hlt.
  destruct (Qcompare_cases (m - inject_Z (Qfloor m)) (1 # 2))
    as [[Hc ->]|[[Hc ->]|[Hc ->]]];
    [|destruct (Z.even (Qfloor m))|];
    rewrite ?inject_Z_plus; change (inject_Z 1) with 1; split; lra.
Qed.

Lemma pow2_le_inv (n m : Z) : 2 ^ n <= 2 ^ m → (n <= m)%Z.
Proof. intros H. apply (Qpower_le_compat_l_inv 2); [exact H|reflexivity]. Qed.

(** The error of one rounding: half a unit in the last place. *)
Lemma round_error (x : Q) (k : Z) :
  0 <= x → x <= 2 ^ k → (-1022 <= k)%Z →
  x - 2 ^ (k - 53) <= round x ∧ round x <= x + 2 ^ (k - 53).
Proof.
  intros H0 Hk Hmin. pose proof (pow2_pos (k - 53)) as Pk.
  destruct (round_cases x) as [[Hx Rx]|[[Hx Rx]|[Hx Rx]]]; [rewrite Rx; split; lra| |lra].
  rewrite Rx. unfold magnitude.
  destruct (ilog2_spec x Hx) as [Hlo _].
  assert (ilog2 x <= k)%Z as Hlg.
  { apply pow2_le_inv. lra. }
  assert (exponent x - 1 <= k - 53)%Z as He by (unfold exponent; lia).
  apply pow2_le in He.
  pose proof (pow2_pred (exponent x)) as Ep.
  pose proof (pow2_pos (exponent x - 1)) as Pe.
  destruct (roundHalfEven_error (x / 2 ^ exponent x)) as [Elo Ehi].
  set (n := inject_Z (roundHalfEven (x / 2 ^ exponent x))) in *.
  assert (x == x / 2 ^ exponent x * 2 ^ exponent x) as Ex.
  { field. apply Qpower_not_0. discriminate. }
  set (m := x / 2 ^ exponent x) in *.
  set (u := 2 ^ exponent x) in *. set (v := 2 ^ (exponent x - 1)) in *.
  assert (0 < u) as Pu by lra.
  assert ((m - (1 # 2)) * u <= n * u) as H1 by (apply Qmult_le_compat_r; lra).
  assert (n * u <= (m + (1 # 2)) * u) as H2 by (apply Qmult_le_compat_r; lra).
  split; nra.
Qed.
End DoubleFacts.


(** ** Typing session *)

Section SessionProofs.
Import Store Session SessionInv.
Context {H : Type}.
Implicit Types (h : Hook H) (s : State) (text key : string) (mode : Mode).

Lemma countCorrect_snoc l e :
  countCorrect (l ++ [e]) = (countCorrect l + (if correct e then 1 else 0))%nat.
Proof.
  unfold countCorrect. rewrite List.filter_app, length_app. simpl.
  destruct (correct e); reflexivity.
Qed.

Lemma countIncorrect_snoc l e :
  countIncorrect (l ++ [e]) = (countIncorrect l + (if correct e then 0 else 1))%nat.
Proof.
  unfold countIncorrect. rewrite List.filter_app, length_app. simpl.
  destruct (correct e); reflexivity.
Qed.

Lemma count_total l : (countCorrect l + countIncorrect l)%nat = length l.
Proof.
  induction l as [|e l IH]; [reflexivity|].
  unfold countCorrect, countIncorrect in *. simpl.
  destruct (correct e); simpl; lia.
Qed.

Lemma dropLast_snoc {A} (l : list A) x : Js.dropLast (l ++ [x]) = l.
Proof. apply removelast_last. Qed.

Lemma consistent_snoc text l e :
  consistent text l →
  expected e = Js.charAt text (Z.of_nat (length l)) →
  correct e = Js.strictEq (char e) (expected e) →
  consistent text (l ++ [e]).
Proof.
  intros Hl He Hc i e' Hi.
  destruct (decide (i < length l)%nat) as [Hlt|Hge].
  - rewrite lookup_app_l in Hi by assumption. exact (Hl i e' Hi).
  - rewrite lookup_app_r in Hi by lia.
    destruct (i - length l)%nat as [|n] eqn:Hd; simpl in Hi; [|destruct n; discriminate].
    inversion Hi; subst e'. replace i with (length l) by lia. split; assumption.
Qed.

Lemma consistent_prefix text l e : consistent text (l ++ [e]) → consistent text l.
Proof.
  intros Hl i e' Hi. apply Hl. apply lookup_app_l_Some. exact Hi.
Qed.

Lemma Inv_initial text : Inv text initial.
Proof.
  split; simpl; try reflexivity; try lia.
  - unfold len. lia.
  - intros _ Hne. unfold len. destruct text; [discriminate|simpl; lia].
  - intros i e Hi. rewrite lookup_nil in Hi. discriminate.
Qed.

Lemma Inv_handleKeyPress text key now h :
  Inv text (session h) → Inv text (session (handleKeyPress text key now h)).
Proof.
  intros Hinv. unfold handleKeyPress.
  destruct (isComplete (session h)) eqn:Hdone; simpl; [exact Hinv|].
  destruct (Js.isEmpty text) eqn:Hempty; simpl; [exact Hinv|].
  destruct Hinv as [Hi Hc He Hb Ho Hs Hl].
  specialize (Ho Hdone Hempty).
  split; simpl.
  - rewrite length_app. simpl. lia.
  - rewrite countCorrect_snoc. simpl.
    destruct (Js.strictEq key _); lia.
  - rewrite countIncorrect_snoc. simpl.
    destruct (Js.strictEq key _); lia.
  - lia.
  - intros Hopen _. fold (len text) in Hopen.
    destruct (len text <=? currentIndex (session h) + 1) eqn:Hle;
      [discriminate|]. apply Z.leb_gt in Hle. exact Hle.
  - reflexivity.
  - apply consistent_snoc; simpl; [assumption| |reflexivity].
    rewrite <- Hi. reflexivity.
Qed.

Lemma Inv_handleBackspace text mode h :
  Inv text (session h) → Inv text (session (handleBackspace mode h)).
Proof.
  intros Hinv. unfold handleBackspace.
  destruct (negb (bool_decide (mode = learning))); simpl; [exact Hinv|].
  destruct (currentIndex (session h) =? 0) eqn:Hz; simpl; [exact Hinv|].
  destruct Hinv as [Hi Hc He Hb Ho Hs Hl].
  apply Z.eqb_neq in Hz.
  destruct (typedChars (session h)) as [|e0 l0] eqn:Hty using rev_ind;
    [simpl in Hi; lia|]. clear IHl0.
  rename e0 into e, l0 into l.
  rewrite length_app in Hi. simpl in Hi.
  rewrite countCorrect_snoc in Hc. rewrite countIncorrect_snoc in He.
  rewrite last_snoc, dropLast_snoc.
  split; simpl.
  - lia.
  - destruct (correct e); simpl; lia.
  - destruct (correct e); simpl; lia.
  - lia.
  - intros _ _. lia.
  - intros Hpos. apply Hs. lia.
  - eapply consistent_prefix. exact Hl.
Qed.

Lemma Inv_call text mode c h :
  Inv text (session h) → Inv text (session (call text mode c h)).
Proof.
  destruct c as [key now|]; simpl;
    [apply Inv_handleKeyPress | apply Inv_handleBackspace].
Qed.

Lemma calls_snoc text mode cs c h :
  calls text mode (cs ++ [c]) h = call text mode c (calls text mode cs h).
Proof. unfold calls. rewrite foldl_app. reflexivity. Qed.

Lemma Inv_calls text mode cs h :
  Inv text (session h) → Inv text (session (calls text mode cs h)).
Proof.
  intros Hh. induction cs as [|c cs IH] using rev_ind; [exact Hh|].
  rewrite calls_snoc. apply Inv_call. exact IH.
Qed.

Lemma handleKeyPress_complete text key now h :
  isComplete (session h) = true → handleKeyPress text key now h = h.
Proof. intros Hdone. unfold handleKeyPress. rewrite Hdone. reflexivity. Qed.

Lemma handleKeyPress_empty key now h : handleKeyPress "" key now h = h.
Proof. unfold handleKeyPress. simpl. rewrite orb_true_r. reflexivity. Qed.

Lemma handleBackspace_test h : handleBackspace test h = h.
Proof. reflexivity. Qed.

Lemma handleBackspace_isComplete mode h :
  isComplete (session (handleBackspace mode h)) = isComplete (session h).
Proof.
  unfold handleBackspace.
  destruct (negb _ || _); reflexivity.
Qed.

Lemma Terminal_handleKeyPress text key now h :
  Inv text (session h) → Terminal text (session h) →
  Terminal text (session (handleKeyPress text key now h)).
Proof.
  intros Hinv Hterm. unfold handleKeyPress.
  destruct (isComplete (session h)) eqn:Hdone; simpl; [exact Hterm|].
  destruct (Js.isEmpty text) eqn:Hempty; simpl; [exact Hterm|].
  pose proof (inv_open _ _ Hinv Hdone Hempty) as Hlt.
  unfold Terminal; simpl. fold (len text).
  destruct (len text <=? currentIndex (session h) + 1) eqn:Hle; [|discriminate].
  intros _. apply Z.leb_le in Hle. lia.
Qed.

Lemma Terminal_handleBackspace_open text mode h :
  isComplete (session h) = false →
  Terminal text (session (handleBackspace mode h)).
Proof.
  intros Hopen Hdone. rewrite handleBackspace_isComplete in Hdone. congruence.
Qed.

Lemma Terminal_calls_test text cs h :
  Inv text (session h) → Terminal text (session h) →
  Terminal text (session (calls text test cs h)).
Proof.
  intros Hinv Hterm. induction cs as [|c cs IH] using rev_ind; [exact Hterm|].
  rewrite calls_snoc. destruct c as [key now|]; simpl.
  - apply Terminal_handleKeyPress; [apply Inv_calls; exact Hinv | exact IH].
  - exact IH.
Qed.

(** What the listener of the learning screen does with one event: nothing,
    or one call of a handler on a session that is not complete. *)
Lemma LearningMode_keydown_cases text event now h :
  LearningMode.keydown text event now h = h
  ∨ isComplete (session h) = false
    ∧ ∃ c, LearningMode.keydown text event now h = call text learning c h.
Proof.
  unfold LearningMode.keydown, Keyboard.handleKeyDown.
  destruct (isComplete (session h)) eqn:Hdone; cbn [negb]; [left; reflexivity|].
  destruct (bool_decide (Keyboard.key event = "Tab")
            || bool_decide (Keyboard.key event = "F5")); [left; reflexivity|].
  destruct (bool_decide (Keyboard.key event = "Backspace")).
  { right. split; [reflexivity|]. exists Backspace. reflexivity. }
  destruct (bool_decide (Keyboard.key event ∈ Keyboard.modifierKeys));
    [left; reflexivity|].
  destruct (Keyboard.ctrlKey event || Keyboard.metaKey event
            || Keyboard.altKey event); [left; reflexivity|].
  destruct (String.length (Keyboard.key event) =? 1)%nat eqn:Hone;
    destruct (bool_decide (Keyboard.key event = "Enter")) eqn:Henter.
  - apply bool_decide_eq_true in Henter. rewrite Henter in Hone. discriminate.
  - right. split; [reflexivity|]. exists (KeyPress (Keyboard.key event) now).
    reflexivity.
  - right. split; [reflexivity|]. exists (KeyPress Keyboard.newline now).
    reflexivity.
  - left. reflexivity.
Qed.

Lemma LearningMode_keydown_complete text event now h :
  isComplete (session h) = true → LearningMode.keydown text event now h = h.
Proof.
  intros Hdone. unfold LearningMode.keydown, Keyboard.handleKeyDown.
  rewrite Hdone. reflexivity.
Qed.

Lemma LearningMode_keydowns_snoc text events e h :
  LearningMode.keydowns text (events ++ [e]) h
  = LearningMode.keydown text e.1 e.2 (LearningMode.keydowns text events h).
Proof. unfold LearningMode.keydowns. rewrite foldl_app. reflexivity. Qed.

Lemma Inv_Terminal_keydowns text events h :
  Inv text (session h) → Terminal text (session h) →
  Inv text (session (LearningMode.keydowns text events h))
  ∧ Terminal text (session (LearningMode.keydowns text events h)).
Proof.
  intros Hinv Hterm. induction events as [|e events IH] using rev_ind;
    [split; assumption|].
  rewrite LearningMode_keydowns_snoc. destruct IH as [IHi IHt].
  destruct (LearningMode_keydown_cases text e.1 e.2
              (LearningMode.keydowns text events h)) as [->|[Hopen [c ->]]];
    [split; assumption|].
  split; [apply Inv_call; exact IHi|].
  destruct c as [key now|]; simpl.
  - apply Terminal_handleKeyPress; assumption.
  - apply Terminal_handleBackspace_open; exact Hopen.
Qed.

Lemma Terminal_initial text : Terminal text initial.
Proof. intros Hdone. discriminate. Qed.

Lemma Inv_counts text s :
  Inv text s →
  correctCount s + errors s = currentIndex s
  ∧ currentIndex s = Z.of_nat (length (typedChars s)).
Proof.
  intros [Hi Hc He _ _ _ _]. split; [|exact Hi].
  rewrite Hc, He, Hi. pose proof (count_total (typedChars s)). lia.
Qed.

End SessionProofs.

Section SessionClaims.
Import Store Session SessionInv.
Context {H : Type}.
Implicit Types (h : Hook H) (a : AppState H (gmap string nat)).

(** C1 (as amended).  From the initial session, for every text:
    after any interleaving of [handleKeyPress] and [handleBackspace] calls, in
    either mode, [correctCount + errors = currentIndex] and
    [currentIndex = length typedChars], and [handleKeyPress] leaves a
    complete session as it is; in test mode, moreover, a complete session has
    [currentIndex = length text] and no call changes it; in learning mode the
    same two facts hold for every sequence of keyboard events delivered by the
    listener of the learning screen, which is switched off once the session is
    complete; [reset] gives back the initial session. *)
Theorem session_invariants (text : string) a :
  (∀ mode cs,
     let h := calls text mode cs (start a) in
     let s := session h in
     correctCount s + errors s = currentIndex s
     ∧ currentIndex s = Z.of_nat (length (typedChars s))
     ∧ (isComplete s = true → ∀ key now, handleKeyPress text key now h = h))
  ∧ (∀ cs,
       let h := calls text test cs (start a) in
       let s := session h in
       (isComplete s = true → currentIndex s = len text)
       ∧ (isComplete s = true → ∀ c, call text test c h = h))
  ∧ (∀ events,
       let h := LearningMode.keydowns text events (start a) in
       let s := session h in
       correctCount s + errors s = currentIndex s
       ∧ currentIndex s = Z.of_nat (length (typedChars s))
       ∧ (isComplete s = true → currentIndex s = len text)
       ∧ (isComplete s = true →
          ∀ event now, LearningMode.keydown text event now h = h))
  ∧ (∀ h, session (reset h) = initial).
Proof.
  split; [|split; [|split]].
  - intros mode cs h s.
    pose proof (Inv_calls text mode cs (start a) (Inv_initial text)) as Hinv.
    destruct (Inv_counts _ _ Hinv) as [Hsum Hidx].
    split; [exact Hsum|]. split; [exact Hidx|].
    intros Hdone key now. apply handleKeyPress_complete. exact Hdone.
  - intros cs h s. split.
    + apply (Terminal_calls_test text cs (start a));
        [apply Inv_initial | apply Terminal_initial].
    + intros Hdone [key now|]; simpl;
        [apply handleKeyPress_complete; exact Hdone | reflexivity].
  - intros events h s.
    destruct (Inv_Terminal_keydowns text events (start a)
                (Inv_initial text) (Terminal_initial text)) as [Hinv Hterm].
    destruct (Inv_counts _ _ Hinv) as [Hsum Hidx].
    split; [exact Hsum|]. split; [exact Hidx|]. split; [exact Hterm|].
    intros Hdone event now. apply LearningMode_keydown_complete. exact Hdone.
  - intros h. reflexivity.
Qed.

(** C2.  For the text "ab", the keystrokes 'a' then 'x' give: status of
    index 0 correct, status of index 1 incorrect, the session complete, one
    error, accuracy 50. *)
Theorem scenario_ab_ax (mode : Mode) a (t0 t1 : Z) :
  let h := calls "ab" mode [KeyPress "a" t0; KeyPress "x" t1] (start a) in
  let s := session h in
  getCharStatus s 0 = st_correct
  ∧ getCharStatus s 1 = st_incorrect
  ∧ isComplete s = true
  ∧ errors s = 1
  ∧ (accuracy s == 50)%Q.
Proof.
  repeat split.
Qed.

End SessionClaims.

(** C1 (as stated) fails for direct calls in learning mode: on the text
    "a", after typing 'a' the session is complete; a [handleBackspace] call
    then changes it, and leaves it complete with [currentIndex = 0]. *)
Lemma session_invariants_counterexample :
  let h1 := Session.calls "a" Session.learning [Session.KeyPress "a" 0]
              (Session.start (Store.initialState (R := unit))) in
  let h2 := Session.call "a" Session.learning Session.Backspace h1 in
  Session.isComplete (Session.session h1) = true
  ∧ h2 ≠ h1
  ∧ Session.isComplete (Session.session h2) = true
  ∧ Session.currentIndex (Session.session h2) ≠ SessionInv.len "a".
Proof.
  repeat split.
  - intros E. apply (f_equal (λ h, Session.currentIndex (Session.session h))) in E.
    discriminate E.
  - discriminate.
Qed.

(** The invariants of C1 at the text "ab", typed correctly in test mode. *)
Lemma session_invariants_witness :
  let a := Store.initialState (R := unit) in
  let h := Session.calls "ab" Session.test
             [Session.KeyPress "a" 0; Session.KeyPress "b" 5] (Session.start a) in
  Session.isComplete (Session.session h) = true
  ∧ Session.currentIndex (Session.session h) = 2
  ∧ Session.call "ab" Session.test Session.Backspace h = h.
Proof.
  pose proof (session_invariants "ab" (Store.initialState (R := unit)))
    as (_ & Htest & _).
  specialize (Htest [Session.KeyPress "a" 0; Session.KeyPress "b" 5]).
  destruct Htest as [Hend Hstay].
  split; [reflexivity|].
  split; [exact (Hend eq_refl)|].
  exact (Hstay eq_refl Session.Backspace).
Defined.

Section CorrectionClaims.
Import Store Session SessionInv.
Context {H : Type}.
Implicit Types (h : Hook H) (a : AppState H (gmap string nat)).

Lemma calls_cons text mode c cs h :
  calls text mode (c :: cs) h = calls text mode cs (call text mode c h).
Proof. reflexivity. Qed.

Lemma charAt_Some_lt text i e :
  Js.charAt text i = Some e → 0 ≤ i < len text.
Proof.
  unfold Js.charAt, len. destruct (i <? 0) eqn:Hneg; [discriminate|].
  apply Z.ltb_ge in Hneg. intros Hget.
  destruct (String.get (Z.to_nat i) text) as [c|] eqn:Hc; [|discriminate].
  assert (Z.to_nat i < String.length text)%nat; [|lia].
  clear Hget Hneg e. revert text Hc. generalize (Z.to_nat i) as n.
  induction n as [|n IH]; intros [|c0 text] Hc; simpl in *;
    try discriminate; [lia|]. apply IH in Hc. lia.
Qed.

Lemma isEmpty_len text : Js.isEmpty text = true → len text = 0.
Proof. destruct text; [reflexivity|discriminate]. Qed.

(** C3 (as amended).  In learning mode, in every session state reached
    from the initial one that is not complete and has [currentIndex > 0],
    [handleBackspace] followed by [handleKeyPress] with the character just
    removed gives back the same session: the same entries, [correctCount],
    [errors] and [currentIndex], and every other cell of the hook. *)
Theorem backspace_retype (text : string) a (cs : list Call) :
  let h := calls text learning cs (start a) in
  0 < currentIndex (session h) →
  isComplete (session h) = false →
  ∀ e now, last (typedChars (session h)) = Some e →
    session (handleKeyPress text (char e) now (handleBackspace learning h))
    = session h.
Proof.
  intros h Hpos Hopen e now Hlast.
  pose proof (Inv_calls text learning cs (start a) (Inv_initial text)) as Hinv.
  fold h in Hinv. clearbody h.
  destruct Hinv as [Hi Hc He Hb Ho Hs Hl].
  assert (Hne : Js.isEmpty text = false).
  { destruct (Js.isEmpty text) eqn:E; [|reflexivity].
    apply isEmpty_len in E. lia. }
  specialize (Ho Hopen Hne). specialize (Hs Hpos).
  destruct h as [[idx tys started done t0 el errs corr] ap]. simpl in *.
  subst done started.
  destruct tys as [|e' l _] using rev_ind; [discriminate|].
  rewrite last_snoc in Hlast. inversion Hlast; subst e'. clear Hlast.
  rewrite length_app in Hi. simpl in Hi.
  rewrite countCorrect_snoc in Hc. rewrite countIncorrect_snoc in He.
  destruct (Hl (length l) e) as [Hexp Hcor].
  { rewrite lookup_app_r by lia. rewrite Nat.sub_diag. reflexivity. }
  unfold handleBackspace. simpl.
  destruct (idx =? 0) eqn:Hz; [apply Z.eqb_eq in Hz; lia|].
  rewrite last_snoc, dropLast_snoc.
  unfold handleKeyPress. simpl. rewrite Hne. simpl.
  fold (len text).
  replace (idx - 1) with (Z.of_nat (length l)) by lia.
  rewrite <- Hexp, <- Hcor.
  replace (len text <=? Z.of_nat (length l) + 1) with false
    by (symmetry; apply Z.leb_gt; lia).
  destruct e as [ch ex co]. simpl in *.
  f_equal; [lia| |]; destruct co; simpl; lia.
Qed.

End CorrectionClaims.

(** C3 (as stated) fails on a complete session: on the text "ab" typed in
    full, [handleBackspace] moves the cursor back to 1 and the following
    [handleKeyPress 'b'] is ignored, so [currentIndex] stays 1 instead of 2. *)
Lemma backspace_retype_counterexample :
  let h := Session.calls "ab" Session.learning
             [Session.KeyPress "a" 0; Session.KeyPress "b" 1]
             (Session.start (Store.initialState (R := unit))) in
  let h' := Session.handleKeyPress "ab" "b" 2
              (Session.handleBackspace Session.learning h) in
  0 < Session.currentIndex (Session.session h)
  ∧ (Session.char <$> last (Session.typedChars (Session.session h))) = Some "b"
  ∧ Session.currentIndex (Session.session h') = 1
  ∧ Session.currentIndex (Session.session h) = 2
  ∧ Session.typedChars (Session.session h')
    ≠ Session.typedChars (Session.session h).
Proof.
  repeat split. discriminate.
Qed.

(** C3 at the text "hi" after the single keystroke 'x' (a mistake). *)
Lemma backspace_retype_witness :
  let h := Session.calls "hi" Session.learning [Session.KeyPress "x" 0]
             (Session.start (Store.initialState (R := unit))) in
  Session.session
    (Session.handleKeyPress "hi" "x" 7 (Session.handleBackspace Session.learning h))
  = Session.session h.
Proof.
  apply (backspace_retype "hi" (Store.initialState (R := unit))
           [Session.KeyPress "x" 0]
           ltac:(reflexivity) ltac:(reflexivity)
           (Session.mkTypedChar "x" (Some "h") false) 7).
  reflexivity.
Defined.

Section CompletionClaims.
Import Store Session SessionInv.
Context {H : Type}.
Implicit Types (h : Hook H) (a : AppState H (gmap string nat)).

Lemma keystrokes_complete text mode keys h :
  Js.isEmpty text = false →
  isComplete (session h) = false →
  currentIndex (session h) + Z.of_nat (length keys) = len text →
  (0 < length keys)%nat →
  isComplete (session (calls text mode (keystrokes keys) h)) = true.
Proof.
  intros Hne. revert h. induction keys as [|k keys IH]; intros h Hopen Hsum Hpos;
    [simpl in Hpos; lia|].
  simpl keystrokes. rewrite calls_cons. simpl call.
  assert (Hstep : session (handleKeyPress text k.1 k.2 h)
          = mkState (currentIndex (session h) + 1)
              (typedChars (session h)
               ++ [mkTypedChar k.1 (Js.charAt text (currentIndex (session h)))
                     (Js.strictEq k.1 (Js.charAt text (currentIndex (session h))))])
              true
              (len text <=? currentIndex (session h) + 1)
              (if hasStarted (session h) then startTime (session h) else Some k.2)
              (elapsedTime (session h))
              (if Js.strictEq k.1 (Js.charAt text (currentIndex (session h)))
               then errors (session h) else errors (session h) + 1)
              (if Js.strictEq k.1 (Js.charAt text (currentIndex (session h)))
               then correctCount (session h) + 1 else correctCount (session h))).
  { unfold handleKeyPress. rewrite Hopen, Hne. simpl. fold (len text).
    destruct (len text <=? _); reflexivity. }
  simpl length in Hsum.
  destruct keys as [|k' keys'].
  - simpl. rewrite Hstep. simpl. apply Z.leb_le. simpl in Hsum. lia.
  - apply IH.
    + rewrite Hstep. simpl. apply Z.leb_gt. simpl length in Hsum. lia.
    + rewrite Hstep. simpl. simpl length in *. lia.
    + simpl. lia.
Qed.

Lemma calls_empty_text mode cs h :
  session h = initial → session (calls "" mode cs h) = initial.
Proof.
  revert h. induction cs as [|c cs IH]; intros h Hh; [exact Hh|].
  rewrite calls_cons. apply IH. destruct c as [key now|]; simpl.
  - rewrite handleKeyPress_empty. exact Hh.
  - unfold handleBackspace. rewrite Hh. simpl. rewrite orb_true_r. exact Hh.
Qed.

(** C4.  For every text and every sequence of keystrokes as long as the
    text, correct or not, feeding the whole sequence through
    [handleKeyPress] gives [isComplete = true]; the empty text, which the
    claim sets apart, never starts or completes a session, whatever the
    sequence of calls. *)
Theorem full_length_completes (text : string) (mode : Mode) a :
  (∀ keys : list (string * Z),
     text ≠ "" → length keys = String.length text →
     isComplete (session (calls text mode (keystrokes keys) (start a))) = true)
  ∧ (∀ cs,
       text = "" →
       let s := session (calls text mode cs (start a)) in
       hasStarted s = false ∧ isComplete s = false ∧ s = initial).
Proof.
  split.
  - intros keys Hne Hlen.
    assert (Js.isEmpty text = false) as Hne'
      by (destruct text; [contradiction|reflexivity]).
    apply keystrokes_complete; [exact Hne'|reflexivity| |].
    + simpl. unfold len. lia.
    + destruct text; [contradiction|]. simpl in Hlen. lia.
  - intros cs -> s.
    assert (s = initial) as -> by (apply calls_empty_text; reflexivity).
    repeat split.
Qed.

End CompletionClaims.

(** C4 at the text "ab" with two wrong keystrokes. *)
Lemma full_length_completes_witness :
  Session.isComplete
    (Session.session
       (Session.calls "ab" Session.test (Session.keystrokes [("x", 0); ("y", 3)])
          (Session.start (Store.initialState (R := unit)))))
  = true.
Proof.
  apply (proj1 (full_length_completes "ab" Session.test
                  (Store.initialState (R := unit)))
           [("x", 0); ("y", 3)]).
  - discriminate.
  - reflexivity.
Defined.

Section TallyClaims.
Import Store Session SessionInv.
Context {H : Type}.
Implicit Types (h : Hook H) (a : AppState H (gmap string nat)).

Lemma handleKeyPress_mismatch text key now h e :
  isComplete (session h) = false →
  Js.charAt text (currentIndex (session h)) = Some e →
  key ≠ e →
  mistypedKeys (app (handleKeyPress text key now h))
  = <[e := (count (mistypedKeys (app h)) e + 1)%nat]> (mistypedKeys (app h)).
Proof.
  intros Hopen Hexp Hne. unfold handleKeyPress. rewrite Hopen.
  assert (Js.isEmpty text = false) as ->.
  { destruct (Js.isEmpty text) eqn:E; [|reflexivity].
    apply charAt_Some_lt in Hexp. apply isEmpty_len in E. lia. }
  rewrite Hexp. simpl. rewrite bool_decide_eq_false_2 by exact Hne.
  destruct (hasStarted (session h)), (_ <=? _); reflexivity.
Qed.

Lemma handleKeyPress_tally_mono text key now h k :
  (count (mistypedKeys (app h)) k
   ≤ count (mistypedKeys (app (handleKeyPress text key now h))) k)%nat.
Proof.
  unfold handleKeyPress.
  destruct (isComplete (session h) || Js.isEmpty text); [lia|].
  destruct (Js.strictEq key _).
  - destruct (hasStarted (session h)), (_ <=? _); simpl; lia.
  - unfold count.
    destruct (hasStarted (session h)), (_ <=? _); simpl;
      (destruct (decide (Js.propertyKey
                           (Js.charAt text (currentIndex (session h))) = k))
         as [->|Hk];
       [rewrite lookup_insert_eq; simpl; unfold count; lia
       |rewrite lookup_insert_ne by exact Hk; lia]).
Qed.

Lemma handleBackspace_tally mode h :
  mistypedKeys (app (handleBackspace mode h)) = mistypedKeys (app h).
Proof. unfold handleBackspace. destruct (negb _ || _); reflexivity. Qed.

Lemma calls_tally_mono text mode cs h k :
  (count (mistypedKeys (app h)) k
   ≤ count (mistypedKeys (app (calls text mode cs h))) k)%nat.
Proof.
  induction cs as [|c cs IH] using rev_ind; [simpl; lia|].
  rewrite calls_snoc. etransitivity; [exact IH|].
  destruct c as [key now|]; simpl.
  - apply handleKeyPress_tally_mono.
  - rewrite handleBackspace_tally. lia.
Qed.

Lemma Terminal_expected_open text h e :
  Terminal text (session h) →
  Js.charAt text (currentIndex (session h)) = Some e →
  isComplete (session h) = false.
Proof.
  intros Hterm Hexp. destruct (isComplete (session h)) eqn:Hdone; [|reflexivity].
  specialize (Hterm Hdone). apply charAt_Some_lt in Hexp. lia.
Qed.

(** C6 (as amended).  A [handleKeyPress] call on a session that is not
    complete, with a key different from the expected character [text[currentIndex]], adds
    exactly one to the tally entry of the expected character and changes no
    other entry (so not the entry of the typed key); in the states reached in
    test mode, or through the listener of the learning screen, an expected
    character exists only while the session is not complete; a key equal to
    the expected character leaves the tally as it is; [handleBackspace] never
    changes the tally, and no sequence of calls ever lowers an entry. *)
Theorem mistyped_tally (text : string) a :
  (∀ key now h e,
     isComplete (session h) = false →
     Js.charAt text (currentIndex (session h)) = Some e →
     key ≠ e →
     let m := mistypedKeys (app h) in
     let m' := mistypedKeys (app (handleKeyPress text key now h)) in
     m' !! e = Some (count m e + 1)%nat ∧ ∀ k, k ≠ e → m' !! k = m !! k)
  ∧ (∀ cs e,
       Js.charAt text (currentIndex (session (calls text test cs (start a)))) = Some e →
       isComplete (session (calls text test cs (start a))) = false)
  ∧ (∀ events e,
       Js.charAt text
         (currentIndex (session (LearningMode.keydowns text events (start a)))) = Some e →
       isComplete (session (LearningMode.keydowns text events (start a))) = false)
  ∧ (∀ now h e,
       Js.charAt text (currentIndex (session h)) = Some e →
       mistypedKeys (app (handleKeyPress text e now h)) = mistypedKeys (app h))
  ∧ (∀ mode h,
       mistypedKeys (app (handleBackspace mode h)) = mistypedKeys (app h))
  ∧ (∀ mode cs h k,
       (count (mistypedKeys (app h)) k
        ≤ count (mistypedKeys (app (calls text mode cs h))) k)%nat).
Proof.
  repeat apply conj.
  - intros key now h e Hopen Hexp Hne m m'. subst m m'.
    rewrite (handleKeyPress_mismatch text key now h e Hopen Hexp Hne).
    split; [apply lookup_insert_eq|].
    intros k Hk. apply lookup_insert_ne. congruence.
  - intros cs e. apply Terminal_expected_open.
    apply Terminal_calls_test; [apply Inv_initial | apply Terminal_initial].
  - intros events e. apply Terminal_expected_open.
    apply Inv_Terminal_keydowns; [apply Inv_initial | apply Terminal_initial].
  - intros now h e Hexp. unfold handleKeyPress.
    destruct (isComplete (session h) || Js.isEmpty text); [reflexivity|].
    rewrite Hexp. simpl. rewrite bool_decide_eq_true_2 by reflexivity.
    destruct (hasStarted (session h)), (_ <=? _); reflexivity.
  - apply handleBackspace_tally.
  - intros mode cs h k. apply calls_tally_mono.
Qed.

(** C9.  In test mode a backspace event changes nothing: the listener of
    the test screen has no backspace callback, and [handleBackspace] itself
    returns at once when the mode is not learning.  The whole hook
    ([currentIndex], [typedChars], [correctCount], [errors], [hasStarted],
    [isComplete], and the store) is the same afterwards. *)
Theorem test_mode_backspace_ignored (text : string)
    (timerFinished showResults ctrl meta alt : bool) (now : Z) h :
  TestMode.keydown text timerFinished showResults
    (Keyboard.mkKeyboardEvent "Backspace" ctrl meta alt) now h = h
  ∧ handleBackspace test h = h.
Proof.
  split; [|reflexivity].
  unfold TestMode.keydown, Keyboard.handleKeyDown.
  destruct (negb _); reflexivity.
Qed.

End TallyClaims.

(** C6 at the text "ab": typing 'x' where 'a' is expected counts one
    mistake for 'a' and none for 'x'. *)
Lemma mistyped_tally_witness :
  let h := Session.start (Store.initialState (R := unit)) in
  let m' := Store.mistypedKeys (Session.app (Session.handleKeyPress "ab" "x" 0 h)) in
  m' !! "a" = Some 1%nat ∧ m' !! "x" = None.
Proof.
  destruct (proj1 (mistyped_tally "ab" (Store.initialState (R := unit)))
              "x" 0 (Session.start (Store.initialState (R := unit))) "a"
              ltac:(reflexivity) ltac:(reflexivity) ltac:(discriminate))
    as [Hexp Hother].
  split; [exact Hexp|].
  rewrite (Hother "x" ltac:(discriminate)). reflexivity.
Defined.

(** C6 (as stated) fails on a complete session: in learning mode, after
    "ab" is typed in full and the last character erased, the expected
    character is "b" again but the session is still complete, so a wrong key
    is dropped before the tally is reached. *)
Lemma mistyped_tally_counterexample :
  let h := Session.calls "ab" Session.learning
             [Session.KeyPress "a" 0; Session.KeyPress "b" 1; Session.Backspace]
             (Session.start (Store.initialState (R := unit))) in
  Js.charAt "ab" (Session.currentIndex (Session.session h)) = Some "b"
  ∧ "x" ≠ "b"
  ∧ Session.isComplete (Session.session h) = true
  ∧ Store.mistypedKeys (Session.app (Session.handleKeyPress "ab" "x" 2 h))
    = Store.mistypedKeys (Session.app h)
  ∧ Store.mistypedKeys (Session.app (Session.handleKeyPress "ab" "x" 2 h)) !! "b"
    = None.
Proof.
  repeat split. discriminate.
Qed.

(** ** Countdown timer *)

Section TimerProofs.
Import Timer.

Lemma run_cons e es t : run (e :: es) t = run es (step e t).
Proof. reflexivity. Qed.

Lemma tick_running r :
  0 < r →
  tick (mkState r true false)
  = if r <=? 1 then mkState 0 false true else mkState (r - 1) true false.
Proof.
  intros Hr. unfold tick, intervalActive.
  cbn [timeRemaining isRunning isFinished andb].
  rewrite (proj2 (Z.ltb_lt 0 r)) by exact Hr. reflexivity.
Qed.

Lemma ticks_finished n : ticks n (mkState 0 false true) = mkState 0 false true.
Proof.
  unfold ticks. induction n as [|n IH]; [reflexivity|].
  simpl replicate. rewrite run_cons. exact IH.
Qed.

Lemma ticks_running n r :
  0 < r →
  ticks n (mkState r true false)
  = if Z.of_nat n <? r then mkState (r - Z.of_nat n) true false
    else mkState 0 false true.
Proof.
  revert r. induction n as [|n IH]; intros r Hr.
  - change (ticks 0 (mkState r true false)) with (mkState r true false).
    change (Z.of_nat 0) with 0.
    rewrite (proj2 (Z.ltb_lt 0 r)) by exact Hr.
    rewrite Z.sub_0_r. reflexivity.
  - unfold ticks. simpl replicate. rewrite run_cons. simpl step.
    rewrite tick_running by exact Hr.
    destruct (r <=? 1) eqn:Hle.
    + fold (ticks n (mkState 0 false true)). rewrite ticks_finished.
      apply Z.leb_le in Hle.
      rewrite (proj2 (Z.ltb_ge (Z.of_nat (S n)) r)) by lia. reflexivity.
    + apply Z.leb_gt in Hle. fold (ticks n (mkState (r - 1) true false)).
      rewrite IH by lia.
      destruct (Z.of_nat n <? r - 1) eqn:Hlt.
      * apply Z.ltb_lt in Hlt.
        rewrite (proj2 (Z.ltb_lt (Z.of_nat (S n)) r)) by lia.
        f_equal. lia.
      * apply Z.ltb_ge in Hlt.
        rewrite (proj2 (Z.ltb_ge (Z.of_nat (S n)) r)) by lia. reflexivity.
Qed.

Lemma transitions_finished n :
  finishedTransitions (replicate n Tick) (mkState 0 false true) = 0%nat.
Proof. induction n as [|n IH]; [reflexivity|exact IH]. Qed.

Lemma transitions_running n r :
  0 < r →
  finishedTransitions (replicate n Tick) (mkState r true false)
  = if Z.of_nat n <? r then 0%nat else 1%nat.
Proof.
  revert r. induction n as [|n IH]; intros r Hr.
  - change (Z.of_nat 0) with 0.
    rewrite (proj2 (Z.ltb_lt 0 r)) by exact Hr. reflexivity.
  - simpl replicate. cbn [finishedTransitions]. unfold finishes. simpl step.
    rewrite tick_running by exact Hr.
    destruct (r <=? 1) eqn:Hle.
    + rewrite transitions_finished. apply Z.leb_le in Hle.
      rewrite (proj2 (Z.ltb_ge (Z.of_nat (S n)) r)) by lia. reflexivity.
    + apply Z.leb_gt in Hle. rewrite IH by lia. simpl.
      destruct (Z.of_nat n <? r - 1) eqn:Hlt.
      * apply Z.ltb_lt in Hlt.
        rewrite (proj2 (Z.ltb_lt (Z.of_nat (S n)) r)) by lia. reflexivity.
      * apply Z.ltb_ge in Hlt.
        rewrite (proj2 (Z.ltb_ge (Z.of_nat (S n)) r)) by lia. reflexivity.
Qed.

Lemma Good_step e t :
  (match e with Reset _ => false | _ => true end) = true →
  Good t → Good (step e t).
Proof.
  intros He [Hpos Hfin]. destruct e; try discriminate; simpl.
  - unfold start. destruct (isRunning t || isFinished t) eqn:Hb;
      [split; assumption|].
    apply orb_false_elim in Hb as [_ Hf]. split; simpl; [exact Hpos|].
    intros Hf'. congruence.
  - unfold pause. split; simpl; [exact Hpos|].
    intros Hf. split; [apply Hfin; exact Hf|reflexivity].
  - unfold tick. destruct (intervalActive t) eqn:Ha; [|split; assumption].
    destruct (timeRemaining t <=? 1) eqn:Hle.
    + split; simpl; [lia|]. intros _. split; reflexivity.
    + apply Z.leb_gt in Hle. split; simpl; [lia|].
      intros Hf. destruct (Hfin Hf) as [Hz _]. lia.
Qed.

Lemma finished_step e t :
  (match e with Reset _ => false | _ => true end) = true →
  Good t → isFinished t = true → step e t = t.
Proof.
  intros He [_ Hfin] Hf. destruct (Hfin Hf) as [Hz Hr].
  destruct t as [r run fin]. simpl in *. subst.
  destruct e; try discriminate; reflexivity.
Qed.

Lemma Good_run es t : noReset es = true → Good t → Good (run es t).
Proof.
  revert t. induction es as [|e es IH]; intros t Hes Ht; [exact Ht|].
  simpl in Hes. apply andb_true_iff in Hes as [He Hes].
  rewrite run_cons. apply IH; [exact Hes|]. apply Good_step; assumption.
Qed.

Lemma transitions_once es t :
  noReset es = true → Good t →
  (finishedTransitions es t ≤ 1)%nat
  ∧ (isFinished t = true → finishedTransitions es t = 0%nat).
Proof.
  revert t. induction es as [|e es IH]; intros t Hes Ht; [simpl; split; [lia|reflexivity]|].
  simpl in Hes. apply andb_true_iff in Hes as [He Hes].
  cbn [finishedTransitions]. unfold finishes.
  destruct (IH (step e t) Hes (Good_step e t He Ht)) as [IH1 IH0].
  destruct (isFinished t) eqn:Hf; simpl.
  - rewrite (finished_step e t He Ht Hf) in *.
    specialize (IH0 Hf). split; [lia|intros _; exact IH0].
  - split; [|discriminate].
    destruct (isFinished (step e t)) eqn:Hf'; [|lia].
    rewrite (IH0 eq_refl). lia.
Qed.

Lemma Good_started D : 0 ≤ D → Good (start (useTimer D)).
Proof. intros HD. split; simpl; [exact HD|discriminate]. Qed.

(** C8.  A countdown timer started at a duration [D > 0]: after [D]
    ticks [timeRemaining = 0] and [isFinished = true]; along any number of
    ticks the timer becomes finished once if there are at least [D] of them,
    and not at all otherwise; along any sequence of ticks, [start] and
    [pause] calls without a [reset], [timeRemaining] never becomes
    negative, the timer becomes finished at most once, and once it is
    finished no event changes it; a [start] call on a timer that is running
    or finished changes nothing, while after a [reset] it starts the timer
    again. *)
Theorem countdown_timer (D : Z) :
  0 < D →
  let t0 := start (useTimer D) in
  (timeRemaining (ticks (Z.to_nat D) t0) = 0
   ∧ isFinished (ticks (Z.to_nat D) t0) = true)
  ∧ (∀ n, timeRemaining (ticks n t0) = Z.max 0 (D - Z.of_nat n))
  ∧ (∀ n, finishedTransitions (replicate n Tick) t0
          = if (n <? Z.to_nat D)%nat then 0%nat else 1%nat)
  ∧ (∀ es, noReset es = true →
       0 ≤ timeRemaining (run es t0)
       ∧ (finishedTransitions es t0 ≤ 1)%nat
       ∧ (isFinished (run es t0) = true →
          ∀ e, noReset [e] = true → step e (run es t0) = run es t0))
  ∧ (∀ t, isRunning t || isFinished t = true → start t = t)
  ∧ (∀ t newTime, isRunning (start (reset newTime t)) = true).
Proof.
  intros HD t0.
  assert (Ht0 : t0 = mkState D true false) by reflexivity.
  repeat apply conj.
  - rewrite Ht0, ticks_running by exact HD.
    rewrite (proj2 (Z.ltb_ge (Z.of_nat (Z.to_nat D)) D)) by lia. reflexivity.
  - rewrite Ht0, ticks_running by exact HD.
    rewrite (proj2 (Z.ltb_ge (Z.of_nat (Z.to_nat D)) D)) by lia. reflexivity.
  - intros n. rewrite Ht0, ticks_running by exact HD.
    destruct (Z.of_nat n <? D) eqn:Hlt; simpl.
    + apply Z.ltb_lt in Hlt. lia.
    + apply Z.ltb_ge in Hlt. lia.
  - intros n. rewrite Ht0, transitions_running by exact HD.
    destruct (Z.of_nat n <? D) eqn:Hlt.
    + apply Z.ltb_lt in Hlt. rewrite (proj2 (Nat.ltb_lt n (Z.to_nat D))) by lia.
      reflexivity.
    + apply Z.ltb_ge in Hlt. rewrite (proj2 (Nat.ltb_ge n (Z.to_nat D))) by lia.
      reflexivity.
  - intros es Hes.
    pose proof (Good_run es t0 Hes (Good_started D ltac:(lia))) as Hgood.
    split; [exact (proj1 Hgood)|]. split.
    + apply transitions_once; [exact Hes|apply Good_started; lia].
    + intros Hf e He. apply finished_step; [|exact Hgood|exact Hf].
      simpl in He. rewrite andb_true_r in He. exact He.
  - intros t Hb. unfold start. rewrite Hb. reflexivity.
  - intros t newTime. reflexivity.
Qed.

End TimerProofs.

(** C8 at the duration of the test screen, 60 seconds. *)
Lemma countdown_timer_witness :
  let t := Timer.ticks 60 (Timer.start (Timer.useTimer TestMode.TEST_DURATION)) in
  Timer.timeRemaining t = 0 ∧ Timer.isFinished t = true.
Proof.
  exact (proj1 (countdown_timer TestMode.TEST_DURATION ltac:(reflexivity))).
Defined.

(** ** Session history *)

Section HistoryProofs.
Import Store.
Context {R : Type}.
Implicit Types (st : AppState (list R) (gmap string nat)) (payload : R).

Lemma sliceTo_cons_sliceTo payload (l : list R) :
  Js.sliceTo 100 (payload :: Js.sliceTo 100 l) = Js.sliceTo 100 (payload :: l).
Proof.
  unfold Js.sliceTo. change (take 100 (payload :: ?x)) with (payload :: take 99 x).
  f_equal. rewrite take_take. reflexivity.
Qed.

Lemma history_after_sessions (payloads : list R) :
  history (foldl appReducer initialState (A_ADD_HISTORY <$> payloads))
  = Js.sliceTo 100 (rev payloads).
Proof.
  induction payloads as [|p ps IH] using rev_ind; [reflexivity|].
  rewrite fmap_app, foldl_app. simpl. rewrite IH.
  rewrite rev_app_distr. simpl. apply sliceTo_cons_sliceTo.
Qed.

(** C10.  Every [ADD_HISTORY] action puts the new record at the front of
    the history and keeps the first 100 entries of the result, so the history
    has at most 100 records after it, whatever it held before; after any
    number of recorded sessions the history is the newest 100 of them, newest
    first. *)
Theorem history_capped :
  (∀ st payload,
     let st' := appReducer st (A_ADD_HISTORY payload) in
     history st' = take 100 (payload :: history st)
     ∧ head (history st') = Some payload
     ∧ (length (history st') ≤ 100)%nat)
  ∧ (∀ payloads : list R,
       let st := foldl appReducer initialState (A_ADD_HISTORY <$> payloads) in
       history st = take 100 (rev payloads)
       ∧ (length (history st) ≤ 100)%nat).
Proof.
  split.
  - intros st payload st'. subst st'.
    change (history (appReducer st (A_ADD_HISTORY payload)))
      with (take 100 (payload :: history st)).
    split; [reflexivity|]. split; [reflexivity|].
    rewrite length_take. lia.
  - intros payloads st. subst st. rewrite history_after_sessions.
    unfold Js.sliceTo. split; [reflexivity|]. rewrite length_take. lia.
Qed.

End HistoryProofs.

(** ** Metrics *)

Section RoundingFacts.
Local Open Scope Q_scope.

Lemma Math_round_error (x : Q) :
  x - (1 # 2) < inject_Z (Js.Math_round x) ∧ inject_Z (Js.Math_round x) <= x + (1 # 2).
Proof.
  unfold Js.Math_round.
  pose proof (Qfloor_le (x + (1 # 2))) as Hle.
  pose proof (Qlt_floor (x + (1 # 2))) as Hlt.
  rewrite inject_Z_plus in Hlt. change (inject_Z 1) with 1 in Hlt.
  split; lra.
Qed.

Lemma Math_round_mono (x y : Q) : x <= y → (Js.Math_round x <= Js.Math_round y)%Z.
Proof.
  intros Hxy. unfold Js.Math_round. apply Qfloor_resp_le. lra.
Qed.

Lemma Math_round_integer (n : Z) : Js.Math_round (inject_Z n) = n.
Proof.
  destruct (Math_round_error (inject_Z n)) as [Hlo Hhi].
  set (r := Js.Math_round (inject_Z n)) in *.
  assert (inject_Z (n + - 1) < inject_Z r) as Hlo'.
  { rewrite inject_Z_plus. change (inject_Z (-1)) with (-1 # 1). lra. }
  assert (inject_Z r < inject_Z (n + 1)) as Hhi'.
  { rewrite inject_Z_plus. change (inject_Z 1) with 1. lra. }
  rewrite <- Zlt_Qlt in Hlo', Hhi'. lia.
Qed.

Lemma Math_round_Qeq (x y : Q) : x == y → Js.Math_round x = Js.Math_round y.
Proof. intros Hxy. unfold Js.Math_round. rewrite Hxy. reflexivity. Qed.

Lemma positive_not_le (e : Q) : 0 < e → Qle_bool e 0 = false.
Proof.
  intros He. destruct (Qle_bool e 0) eqn:Hb; [|reflexivity].
  apply Qle_bool_iff in Hb. lra.
Qed.

Lemma div_nonneg (c t : Q) : 0 <= c → 0 < t → 0 <= c / t.
Proof.
  intros Hc Ht. apply Qle_shift_div_l; [exact Ht|]. lra.
Qed.

Lemma div_le_one (c t : Q) : c <= t → 0 < t → c / t <= 1.
Proof.
  intros Hc Ht. apply Qle_shift_div_r; [exact Ht|]. lra.
Qed.

Lemma div_antitone (c t t' : Q) : 0 <= c → 0 < t → t <= t' → c / t' <= c / t.
Proof.
  intros Hc Ht Htt'. apply Qle_shift_div_r; [lra|].
  assert (c == c / t * t) as Hct by (field; lra).
  pose proof (div_nonneg c t Hc Ht) as Hpos.
  assert (c / t * t <= c / t * t') as Hle.
  { rewrite !(Qmult_comm (c / t)). apply Qmult_le_compat_r; assumption. }
  lra.
Qed.

Lemma div_mono (x y d : Q) : 0 <= d → x <= y → x / d <= y / d.
Proof.
  intros Hd Hxy. unfold Qdiv. apply Qmult_le_compat_r; [exact Hxy|].
  apply Qinv_le_0_compat. exact Hd.
Qed.

(** [Math.round(x * 10) / 10] never decreases when [x] grows. *)
Lemma tenths_mono (x y : Q) :
  x <= y →
  Double.div (inject_Z (Js.Math_round (Double.mul x 10))) 10
  <= Double.div (inject_Z (Js.Math_round (Double.mul y 10))) 10.
Proof.
  intros Hxy. unfold Double.div, Double.mul. apply round_mono.
  apply div_mono; [discriminate|].
  rewrite <- Zle_Qle. apply Math_round_mono. apply round_mono.
  apply Qmult_le_compat_r; [exact Hxy|discriminate].
Qed.

Lemma round_via (x y z : Q) : x == y → Double.round y == z → Double.round x == z.
Proof. intros E H. rewrite <- H. apply round_Proper. exact E. Qed.

End RoundingFacts.

Section MetricsProofs.
Import Stats.
Local Open Scope Q_scope.

Lemma calculateWPM_positive (c e : Q) :
  0 < e → calculateWPM c e = Spec.round10 (Spec.rate c e).
Proof.
  intros He. unfold calculateWPM. rewrite positive_not_le by exact He.
  reflexivity.
Qed.

Lemma inject_Z_positive (n : Z) : (0 < n)%Z → 0 < inject_Z n.
Proof. intros H. change 0 with (inject_Z 0). rewrite <- Zlt_Qlt. exact H. Qed.

(** The divisor [minutes] of [calculateWPM] is positive from one
    millisecond on. *)
Lemma minutes_positive (e : Z) : (0 < e)%Z → 0 < Double.div (inject_Z e) 60000.
Proof.
  intros He. unfold Double.div. apply round_positive.
  assert (2 ^ (-1074) <= 1 / 60000) as Hmin by (vm_compute; discriminate).
  assert (1 / 60000 <= inject_Z e / 60000) as Hle.
  { apply div_mono; [discriminate|].
    change 1 with (inject_Z 1). rewrite <- Zle_Qle. lia. }
  lra.
Qed.

Lemma calculateWPM_none (e : Q) : 0 < e → calculateWPM 0 e == 0.
Proof.
  intros He. unfold calculateWPM. rewrite positive_not_le by exact He.
  unfold Double.div at 3. rewrite (round_zero (0 / 5)) by reflexivity.
  unfold Double.div at 2.
  rewrite (round_zero (0 / Double.div e 60000)) by (unfold Qdiv; ring).
  reflexivity.
Qed.

Lemma calculateWPM_mono (c c' e : Q) :
  0 < e → c <= c' → calculateWPM c e <= calculateWPM c' e.
Proof.
  intros He Hc. unfold calculateWPM. rewrite positive_not_le by exact He.
  apply tenths_mono. unfold Double.div at 1 3. apply round_mono.
  apply div_mono.
  - unfold Double.div. apply round_nonneg. apply div_nonneg; [lra|reflexivity].
  - unfold Double.div. apply round_mono. apply div_mono; [discriminate|exact Hc].
Qed.

(** C5 (as amended).  [calculateWPM 0 e = 0] for every positive elapsed
    time [e], a whole number of milliseconds; [calculateWPM c e = 0] for
    every [c] when [e] is 0 (or negative); [calculateWPM c e] is the [wpm] of
    the specification, [round10 ((c / 5) / (e / 60000))] for [e > 0], in
    double arithmetic, the divisor [e / 60000] being positive; and for a
    fixed positive elapsed time the result never decreases when the number
    of correct characters grows.  It does not scale linearly (see the
    counterexample): the rounding to one decimal stands in the way. *)
Theorem calculateWPM_scaling :
  (∀ e : Z, (0 < e)%Z → calculateWPM 0 (inject_Z e) == 0)
  ∧ (∀ c e, e <= 0 → calculateWPM c e = 0)
  ∧ (∀ c e, calculateWPM c e = Spec.wpm c e)
  ∧ (∀ c e, 0 < e →
       calculateWPM c e
       = Spec.round10 (Double.div (Double.div c 5) (Double.div e 60000)))
  ∧ (∀ e : Z, (0 < e)%Z → 0 < Double.div (inject_Z e) 60000)
  ∧ (∀ c c' e : Z, (0 < e)%Z → (c <= c')%Z →
       calculateWPM (inject_Z c) (inject_Z e)
       <= calculateWPM (inject_Z c') (inject_Z e)).
Proof.
  repeat apply conj.
  - intros e He. apply calculateWPM_none. apply inject_Z_positive. exact He.
  - intros c e He. unfold calculateWPM.
    rewrite (proj2 (Qle_bool_iff e 0) He). reflexivity.
  - intros c e. reflexivity.
  - intros c e He. apply calculateWPM_positive. exact He.
  - apply minutes_positive.
  - intros c c' e He Hc. apply calculateWPM_mono.
    + apply inject_Z_positive. exact He.
    + rewrite <- Zle_Qle. exact Hc.
Qed.

End MetricsProofs.

(** C5 (as stated) fails: with one correct character in 7 seconds the
    result is 1.7, with four it is 6.9, and 4 * 1.7 is 6.8. *)
Lemma calculateWPM_scaling_counterexample :
  (Stats.calculateWPM 1 7000 == Double.literal (17 # 10))%Q
  ∧ (Stats.calculateWPM (Double.mul 4 1) 7000 == Double.literal (69 # 10))%Q
  ∧ (Double.mul 4 (Stats.calculateWPM 1 7000) == Double.literal (68 # 10))%Q
  ∧ ¬ (Stats.calculateWPM (Double.mul 4 1) 7000
       == Double.mul 4 (Stats.calculateWPM 1 7000))%Q.
Proof.
  split; [vm_compute; reflexivity|].
  split; [vm_compute; reflexivity|].
  split; [vm_compute; reflexivity|].
  intros E. vm_compute in E. discriminate E.
Qed.

(** C5 at one minute: no correct character gives 0, and 500 correct
    characters give no less than 250 do. *)
Lemma calculateWPM_scaling_witness :
  (Stats.calculateWPM 0 (inject_Z 60000) == 0)%Q
  ∧ (Stats.calculateWPM (inject_Z 250) (inject_Z 60000)
     <= Stats.calculateWPM (inject_Z 500) (inject_Z 60000))%Q.
Proof.
  split.
  - apply (proj1 calculateWPM_scaling 60000). reflexivity.
  - apply (proj2 (proj2 (proj2 (proj2 (proj2 calculateWPM_scaling)))) 250 500 60000).
    + reflexivity.
    + discriminate.
Defined.

(** ** Export and import *)

Section StorageProofs.
Import Json Store.
Implicit Types (state : AppState JSON JSON) (data : gmap string JSON).

Lemma exported_history now state :
  parse (exportData now state)
  = Some (JObject (<["version" := JString "1.0"]>
                     (<["exportedAt" := JString now]>
                        (<["mistypedKeys" := mistypedKeys state]>
                           {["history" := history state]})))).
Proof. reflexivity. Qed.

Lemma importProgress_export now state hist keys :
  history state = JArray hist →
  mistypedKeys state = JObject keys →
  Storage.importProgress (exportData now state)
  = Some (Storage.mkProgress (JArray hist) (JObject keys)).
Proof.
  intros Hh Hk. unfold Storage.importProgress. rewrite exported_history.
  rewrite Hh, Hk. cbn [truthy typeofObject andb prop].
  rewrite !lookup_insert_ne by discriminate.
  rewrite lookup_singleton_eq, lookup_insert_eq. reflexivity.
Qed.

Lemma importProgress_bad_history data v :
  data !! "history" = Some v → truthy v = true → isArray v = false →
  Storage.importProgress (Document (JObject data)) = None.
Proof.
  intros Hv Ht Ha. unfold Storage.importProgress. simpl.
  rewrite Hv. simpl. rewrite Ht, Ha. reflexivity.
Qed.

Lemma importProgress_bad_mistypedKeys data v :
  data !! "mistypedKeys" = Some v → truthy v = true → typeofObject v = false →
  Storage.importProgress (Document (JObject data)) = None.
Proof.
  intros Hv Ht Ho. unfold Storage.importProgress. simpl.
  destruct (truthy_opt (data !! "history")
            && negb (from_option isArray false (data !! "history")));
    [reflexivity|].
  rewrite Hv. simpl. rewrite Ht, Ho. reflexivity.
Qed.

(** C7 (as amended).  For every store whose history is a list and whose
    [mistypedKeys] is a mapping, importing the string that [exportData]
    produces succeeds and sets both fields of the importing store to exactly
    those values.  Importing a document whose [history] field is present,
    truthy and not a list, or whose [mistypedKeys] field is present, truthy
    and not of type object (a number, a string or [true]), fails and leaves
    the store as it was, as does a string that is not JSON at all. *)
Theorem export_import_roundtrip :
  (∀ now state state0 hist keys,
     history state = JArray hist →
     mistypedKeys state = JObject keys →
     let r := importData (exportData now state) state0 in
     r.1 = true
     ∧ history r.2 = history state
     ∧ mistypedKeys r.2 = mistypedKeys state)
  ∧ (∀ data v state0,
       data !! "history" = Some v → truthy v = true → isArray v = false →
       importData (Document (JObject data)) state0 = (false, state0))
  ∧ (∀ data v state0,
       data !! "mistypedKeys" = Some v → truthy v = true →
       typeofObject v = false →
       importData (Document (JObject data)) state0 = (false, state0))
  ∧ (∀ raw state0, importData (NotJson raw) state0 = (false, state0)).
Proof.
  repeat apply conj.
  - intros now state state0 hist keys Hh Hk r. subst r. unfold importData.
    rewrite (importProgress_export now state hist keys Hh Hk).
    rewrite Hh, Hk. repeat split.
  - intros data v state0 Hv Ht Ha. unfold importData.
    rewrite (importProgress_bad_history data v Hv Ht Ha). reflexivity.
  - intros data v state0 Hv Ht Ho. unfold importData.
    rewrite (importProgress_bad_mistypedKeys data v Hv Ht Ho). reflexivity.
  - intros raw state0. reflexivity.
Qed.

End StorageProofs.

(** C7 (as stated) fails: a document whose [mistypedKeys] is a list, or a
    mapping that is not flat, is accepted and replaces the tally (and, having
    no [history], empties the history); a document whose [history] is the
    number 0 is accepted as well and empties both fields. *)
Lemma export_import_roundtrip_counterexample :
  let state0 :=
    Store.mkAppState false None
      (Json.JArray [Json.JString "session"])
      (Json.JObject {["a" := Json.JNumber 3]}) in
  let listTally :=
    Json.Document (Json.JObject {["mistypedKeys" := Json.JArray [Json.JNumber 1]]}) in
  let nestedTally :=
    Json.Document
      (Json.JObject
         {["mistypedKeys" := Json.JObject {["a" := Json.JObject {["b" := Json.JNumber 1]}]}]}) in
  let zeroHistory :=
    Json.Document (Json.JObject {["history" := Json.JNumber 0]}) in
  Store.importData listTally state0
  = (true, Store.mkAppState false None (Json.JArray []) (Json.JArray [Json.JNumber 1]))
  ∧ (Store.importData nestedTally state0).1 = true
  ∧ Store.importData zeroHistory state0
    = (true, Store.mkAppState false None (Json.JArray []) (Json.JObject ∅)).
Proof.
  repeat split.
Qed.

(** C7 for a store with one session and one mistyped key. *)
Lemma export_import_roundtrip_witness :
  let state :=
    Store.mkAppState false None
      (Json.JArray [Json.JObject {["wpm" := Json.JNumber (425 # 10)]}])
      (Json.JObject {["a" := Json.JNumber 3]}) in
  let empty := Store.mkAppState true (Some 5) (Json.JArray []) (Json.JObject ∅) in
  let r := Store.importData (Store.exportData "2024-01-01T00:00:00.000Z" state) empty in
  r.1 = true
  ∧ Store.history r.2 = Store.history state
  ∧ Store.mistypedKeys r.2 = Store.mistypedKeys state.
Proof.
  apply (proj1 export_import_roundtrip "2024-01-01T00:00:00.000Z"
           (Store.mkAppState false None
              (Json.JArray [Json.JObject {["wpm" := Json.JNumber (425 # 10)]}])
              (Json.JObject {["a" := Json.JNumber 3]}))
           (Store.mkAppState true (Some 5) (Json.JArray []) (Json.JObject ∅))
           [Json.JObject {["wpm" := Json.JNumber (425 # 10)]}]
           {["a" := Json.JNumber 3]});
    reflexivity.
Defined.

(** ** More on the typing session *)

Section SessionExtras.
Import Store Session SessionInv SessionView.
Context {H : Type}.
Implicit Types (h : Hook H) (a : AppState H (gmap string nat)).

Lemma charAt_chars text (i : nat) :
  Js.charAt text (Z.of_nat i) = chars text !! i.
Proof.
  unfold Js.charAt. rewrite (proj2 (Z.ltb_ge (Z.of_nat i) 0)) by lia.
  rewrite Nat2Z.id. revert i.
  induction text as [|c text IH]; intros [|i]; simpl; try reflexivity.
  apply IH.
Qed.

Lemma length_chars text : length (chars text) = String.length text.
Proof. induction text as [|c text IH]; simpl; [reflexivity|]. rewrite IH. reflexivity. Qed.

(** Typing the characters that are expected, from any point of the text
    to its end. *)
Lemma typed_rest text mode (keys : list (string * Z)) h (i : nat) :
  Js.isEmpty text = false →
  isComplete (session h) = false →
  currentIndex (session h) = Z.of_nat i →
  keys.*1 = drop i (chars text) →
  keys ≠ [] →
  let s := session (calls text mode (keystrokes keys) h) in
  isComplete s = true
  ∧ currentIndex s = len text
  ∧ errors s = errors (session h)
  ∧ correctCount s = correctCount (session h) + Z.of_nat (length keys)
  ∧ length (typedChars s) = (length (typedChars (session h)) + length keys)%nat.
Proof.
  intros Hne. revert h i.
  induction keys as [|k keys IH]; intros h i Hopen Hidx Hkeys Hnil; [congruence|].
  clear Hnil. simpl keystrokes. rewrite calls_cons. simpl call.
  simpl fmap in Hkeys.
  assert (Hk : chars text !! i = Some k.1).
  { rewrite <- (Nat.add_0_r i), <- lookup_drop, <- Hkeys. reflexivity. }
  assert (Hrest : keys.*1 = drop (S i) (chars text)).
  { rewrite <- (Nat.add_1_r i), <- drop_drop, <- Hkeys. reflexivity. }
  assert (Hi : (i < String.length text)%nat).
  { rewrite <- length_chars. apply lookup_lt_Some in Hk. exact Hk. }
  assert (Hstep : session (handleKeyPress text k.1 k.2 h)
          = mkState (Z.of_nat (S i))
              (typedChars (session h) ++ [mkTypedChar k.1 (Some k.1) true])
              true
              (len text <=? Z.of_nat (S i))
              (if hasStarted (session h) then startTime (session h) else Some k.2)
              (elapsedTime (session h))
              (errors (session h))
              (correctCount (session h) + 1)).
  { unfold handleKeyPress. rewrite Hopen, Hne, Hidx, charAt_chars, Hk. simpl.
    rewrite bool_decide_eq_true_2 by reflexivity. fold (len text).
    replace (Z.of_nat i + 1) with (Z.of_nat (S i)) by lia.
    destruct (len text <=? _); reflexivity. }
  destruct keys as [|k' keys'].
  - assert (S i = String.length text) as Hend.
    { simpl in Hrest. symmetry in Hrest.
      apply (f_equal length) in Hrest. rewrite length_drop, length_chars in Hrest.
      simpl in Hrest. lia. }
    simpl calls. rewrite Hstep.
    cbn [isComplete currentIndex errors correctCount typedChars length].
    unfold len. rewrite <- Hend.
    repeat apply conj; try lia.
    rewrite length_app. simpl. lia.
  - assert (S i < String.length text)%nat as Hlt.
    { apply (f_equal length) in Hrest.
      rewrite length_drop, length_chars in Hrest. simpl in Hrest. lia. }
    destruct (IH (handleKeyPress text k.1 k.2 h) (S i)) as (Hc & Hi' & He & Hcc & Hl).
    + rewrite Hstep. simpl. apply Z.leb_gt. unfold len. lia.
    + rewrite Hstep. reflexivity.
    + exact Hrest.
    + discriminate.
    + rewrite Hstep in He, Hcc, Hl. simpl in He, Hcc, Hl.
      rewrite length_app in Hl. simpl in Hl |- *.
      repeat split; [exact Hc|exact Hi'|exact He| |]; simpl in *; lia.
Qed.

Lemma calculateAccuracy_all (n : Z) :
  0 < n → (Stats.calculateAccuracy (inject_Z n) (inject_Z n) == 100)%Q.
Proof.
  intros Hn. unfold Stats.calculateAccuracy.
  assert (0 < inject_Z n)%Q as Hq.
  { change 0%Q with (inject_Z 0). rewrite <- Zlt_Qlt. exact Hn. }
  rewrite positive_not_le by exact Hq.
  unfold Double.div, Double.mul.
  assert (Double.round (inject_Z n / inject_Z n) == 1)%Q as E1.
  { apply (round_via _ 1%Q); [field; lra|vm_compute; reflexivity]. }
  assert (Double.round (Double.round (inject_Z n / inject_Z n) * 100) == 100)%Q as E2.
  { apply (round_via _ 100%Q); [rewrite E1; reflexivity|vm_compute; reflexivity]. }
  assert (Double.round (Double.round (Double.round (inject_Z n / inject_Z n) * 100) * 10)
          == inject_Z 1000)%Q as E3.
  { apply (round_via _ 1000%Q); [rewrite E2; reflexivity|vm_compute; reflexivity]. }
  rewrite (Math_round_Qeq _ _ E3), Math_round_integer.
  vm_compute. reflexivity.
Qed.

(** X1.  Typing a non-empty text without a mistake completes the
    session with no error, every character counted as correct, the cursor at
    the end and an accuracy of 100. *)
Theorem perfect_run (text : string) (mode : Mode) a (keys : list (string * Z)) :
  text ≠ "" →
  keys.*1 = chars text →
  let s := session (calls text mode (keystrokes keys) (start a)) in
  isComplete s = true
  ∧ errors s = 0
  ∧ correctCount s = len text
  ∧ currentIndex s = len text
  ∧ (accuracy s == 100)%Q.
Proof.
  intros Hne Hkeys s.
  assert (Js.isEmpty text = false) as Hne'
    by (destruct text; [contradiction|reflexivity]).
  assert (length keys = String.length text) as Hlen.
  { rewrite <- length_chars, <- Hkeys, length_fmap. reflexivity. }
  destruct (typed_rest text mode keys (start a) 0 Hne' eq_refl eq_refl Hkeys)
    as (Hc & Hi & He & Hcc & Hl).
  { destruct keys; [|discriminate]. destruct text; [contradiction|discriminate]. }
  fold s in Hc, Hi, He, Hcc, Hl. simpl in He, Hcc, Hl.
  assert (correctCount s = len text) as Hcc' by (unfold len; lia).
  repeat split; try assumption.
  unfold accuracy, totalTyped. rewrite Hcc', Hl, Hlen. fold (len text).
  apply calculateAccuracy_all. unfold len. destruct text; [contradiction|simpl; lia].
Qed.

(** X2.  In every state reached from the initial one, [getCharStatus]
    splits the positions at the cursor: a position before it is [correct]
    when the key recorded there equals the character of the text at that
    position and [incorrect] otherwise; the position of the cursor is
    [current]; every later position is [pending]. *)
Theorem getCharStatus_reached (text : string) (mode : Mode) a (cs : list Call) (i : nat) :
  let s := session (calls text mode cs (start a)) in
  (Z.of_nat i < currentIndex s →
   ∃ e, typedChars s !! i = Some e
        ∧ getCharStatus s i
          = if Js.strictEq (char e) (Js.charAt text (Z.of_nat i))
            then st_correct else st_incorrect)
  ∧ (Z.of_nat i = currentIndex s → getCharStatus s i = st_current)
  ∧ (currentIndex s < Z.of_nat i → getCharStatus s i = st_pending).
Proof.
  intros s.
  pose proof (Inv_calls text mode cs (start a) (Inv_initial text)) as Hinv.
  fold s in Hinv. destruct Hinv as [Hi _ _ _ _ _ Hl].
  unfold getCharStatus. repeat split.
  - intros Hlt.
    destruct (typedChars s !! i) as [e|] eqn:He.
    + exists e. split; [reflexivity|].
      destruct (Hl i e He) as [Hexp Hcor]. rewrite <- Hexp, <- Hcor. reflexivity.
    + apply lookup_ge_None in He. lia.
  - intros Heq. rewrite (proj2 (lookup_ge_None (typedChars s) i)) by lia.
    rewrite (proj2 (Z.eqb_eq _ _) Heq). reflexivity.
  - intros Hgt. rewrite (proj2 (lookup_ge_None (typedChars s) i)) by lia.
    rewrite (proj2 (Z.eqb_neq (Z.of_nat i) (currentIndex s))) by lia. reflexivity.
Qed.

End SessionExtras.

(** X1 at the text "hi". *)
Lemma perfect_run_witness :
  let s := Session.session
             (Session.calls "hi" Session.learning
                (Session.keystrokes [("h", 0); ("i", 9)])
                (Session.start (Store.initialState (R := unit)))) in
  Session.isComplete s = true ∧ Session.errors s = 0.
Proof.
  destruct (perfect_run "hi" Session.learning (Store.initialState (R := unit))
              [("h", 0); ("i", 9)] ltac:(discriminate) ltac:(reflexivity))
    as (Hc & He & _).
  split; assumption.
Defined.

(** X2 on the text "abc" after the keys 'a' and 'x'. *)
Lemma getCharStatus_reached_witness :
  let s := Session.session
             (Session.calls "abc" Session.test
                [Session.KeyPress "a" 0; Session.KeyPress "x" 1]
                (Session.start (Store.initialState (R := unit)))) in
  Session.getCharStatus s 2 = Session.st_current
  ∧ Session.getCharStatus s 3 = Session.st_pending.
Proof.
  pose proof (getCharStatus_reached "abc" Session.test
                (Store.initialState (R := unit))
                [Session.KeyPress "a" 0; Session.KeyPress "x" 1]) as Hs.
  split.
  - exact (proj1 (proj2 (Hs 2%nat)) eq_refl).
  - exact (proj2 (proj2 (Hs 3%nat)) eq_refl).
Defined.

Section SessionStoreExtras.
Import Store Session SessionInv SessionView.
Context {H : Type}.
Implicit Types (h : Hook H) (a : AppState H (gmap string nat)).

Lemma mistakesAt_snoc k l e :
  mistakesAt k (l ++ [e])
  = (mistakesAt k l
     + if negb (correct e) && bool_decide (Js.propertyKey (expected e) = k)
       then 1 else 0)%nat.
Proof.
  unfold mistakesAt. rewrite List.filter_app, length_app. simpl.
  destruct (negb (correct e) && _); reflexivity.
Qed.

Lemma handleKeyPress_ledger text key now h k :
  (count (mistypedKeys (app (handleKeyPress text key now h))) k
   + mistakesAt k (typedChars (session h)))%nat
  = (count (mistypedKeys (app h)) k
     + mistakesAt k (typedChars (session (handleKeyPress text key now h))))%nat.
Proof.
  unfold handleKeyPress.
  destruct (isComplete (session h) || Js.isEmpty text); [reflexivity|].
  destruct (Js.strictEq key _) eqn:Heq.
  - destruct (hasStarted (session h)), (_ <=? _); simpl;
      rewrite mistakesAt_snoc; simpl; lia.
  - destruct (hasStarted (session h)), (_ <=? _); simpl;
      rewrite mistakesAt_snoc; simpl; unfold count;
      (destruct (decide (Js.propertyKey
                           (Js.charAt text (currentIndex (session h))) = k))
         as [->|Hk];
       [rewrite lookup_insert_eq, bool_decide_eq_true_2 by reflexivity; simpl; lia
       |rewrite lookup_insert_ne, bool_decide_eq_false_2 by exact Hk; simpl; lia]).
Qed.

Lemma handleBackspace_mistakes mode h k :
  (mistakesAt k (typedChars (session (handleBackspace mode h)))
   ≤ mistakesAt k (typedChars (session h)))%nat.
Proof.
  unfold handleBackspace. destruct (negb _ || _); [lia|]. simpl.
  destruct (typedChars (session h)) as [|e l _] using rev_ind; [simpl; lia|].
  rewrite dropLast_snoc, mistakesAt_snoc. lia.
Qed.

Lemma calls_ledger text mode cs h k :
  (count (mistypedKeys (app h)) k
   + mistakesAt k (typedChars (session (calls text mode cs h)))
   ≤ count (mistypedKeys (app (calls text mode cs h))) k
     + mistakesAt k (typedChars (session h)))%nat
  ∧ (mode = test →
     (count (mistypedKeys (app h)) k
      + mistakesAt k (typedChars (session (calls text mode cs h)))
      = count (mistypedKeys (app (calls text mode cs h))) k
        + mistakesAt k (typedChars (session h)))%nat).
Proof.
  induction cs as [|c cs [IHle IHeq]] using rev_ind;
    [simpl; split; [lia|intros; lia]|].
  rewrite calls_snoc. set (h' := calls text mode cs h) in *.
  destruct c as [key now|]; simpl.
  - pose proof (handleKeyPress_ledger text key now h' k). split; [lia|].
    intros Hm. specialize (IHeq Hm). lia.
  - pose proof (handleBackspace_mistakes mode h' k).
    rewrite handleBackspace_tally. split; [lia|].
    intros ->. specialize (IHeq eq_refl). rewrite handleBackspace_test. lia.
Qed.

(** X3.  The mistyped-key tally against the entries of the session: after
    any calls from the initial session, each tally entry has grown by at
    least the number of mistakes still recorded for that character; in test
    mode, where nothing is ever erased, by exactly that number. *)
Theorem tally_ledger (text : string) (mode : Mode) a (cs : list Call) (k : string) :
  let h := calls text mode cs (start a) in
  (count (mistypedKeys a) k + mistakesAt k (typedChars (session h))
   ≤ count (mistypedKeys (app h)) k)%nat
  ∧ (mode = test →
     count (mistypedKeys (app h)) k
     = (count (mistypedKeys a) k + mistakesAt k (typedChars (session h)))%nat).
Proof.
  intros h. destruct (calls_ledger text mode cs (start a) k) as [Hle Heq].
  fold h in Hle, Heq. simpl in Hle, Heq.
  unfold mistakesAt in Hle at 2. simpl in Hle. split; [lia|].
  intros Hm. specialize (Heq Hm). unfold mistakesAt in Heq at 2. simpl in Heq. lia.
Qed.

Lemma active_handleKeyPress text key now h :
  isSessionActive (app h) = hasStarted (session h) && negb (isComplete (session h)) →
  isSessionActive (app (handleKeyPress text key now h))
  = hasStarted (session (handleKeyPress text key now h))
    && negb (isComplete (session (handleKeyPress text key now h))).
Proof.
  intros Hact. unfold handleKeyPress.
  destruct (isComplete (session h)) eqn:Hdone; simpl; [rewrite Hdone; exact Hact|].
  destruct (Js.isEmpty text); simpl; [rewrite Hdone; exact Hact|].
  rewrite ?Hdone, ?andb_true_r in Hact.
  destruct (Js.strictEq key _), (hasStarted (session h)), (_ <=? _);
    simpl in *; congruence.
Qed.

(** X4.  The store follows the session: started from a store with no
    active session, after any calls [isSessionActive] is true exactly while
    the session has started and is not complete, and the history is never
    touched by typing. *)
Theorem store_follows_session (text : string) (mode : Mode) a (cs : list Call) :
  isSessionActive a = false →
  let h := calls text mode cs (start a) in
  isSessionActive (app h) = hasStarted (session h) && negb (isComplete (session h))
  ∧ history (app h) = history a.
Proof.
  intros Ha h. subst h.
  induction cs as [|c cs [IHa IHh]] using rev_ind; [split; [exact Ha|reflexivity]|].
  rewrite calls_snoc. set (h' := calls text mode cs (start a)) in *.
  destruct c as [key now|]; simpl.
  - split; [apply active_handleKeyPress; exact IHa|].
    rewrite <- IHh. unfold handleKeyPress.
    destruct (isComplete (session h') || Js.isEmpty text); [reflexivity|].
    destruct (Js.strictEq key _), (hasStarted (session h')), (_ <=? _); reflexivity.
  - unfold handleBackspace.
    destruct (negb _ || _); simpl; split; assumption.
Qed.

Lemma session_call_only text mode c h1 h2 :
  session h1 = session h2 →
  session (call text mode c h1) = session (call text mode c h2).
Proof.
  intros Hs. destruct c as [key now|]; simpl.
  - unfold handleKeyPress. rewrite Hs.
    destruct (isComplete (session h2) || Js.isEmpty text); [exact Hs|].
    simpl. reflexivity.
  - unfold handleBackspace. rewrite Hs.
    destruct (negb _ || _); [exact Hs|]. reflexivity.
Qed.

(** X5.  [reset] gives a session that behaves as a new one: whatever the
    hook held, the same calls after [reset] lead to the same session as from
    the initial state, and [reset] ends the store's active session. *)
Theorem reset_is_fresh (text : string) (mode : Mode) h a (cs : list Call) :
  session (calls text mode cs (reset h)) = session (calls text mode cs (start a))
  ∧ isSessionActive (app (reset h)) = false
  ∧ mistypedKeys (app (reset h)) = mistypedKeys (app h)
  ∧ history (app (reset h)) = history (app h).
Proof.
  split; [|repeat split].
  induction cs as [|c cs IH] using rev_ind; [reflexivity|].
  rewrite !calls_snoc. apply session_call_only. exact IH.
Qed.

(** X6.  Typing a key and erasing it: in learning mode, in a state
    reached from the initial one that has started and where at least two
    characters are left, [handleKeyPress] followed by [handleBackspace] gives
    back the same session, whatever the key. *)
Theorem type_then_erase (text : string) a (cs : list Call) (key : string) (now : Z) :
  let h := calls text learning cs (start a) in
  hasStarted (session h) = true →
  isComplete (session h) = false →
  currentIndex (session h) + 1 < len text →
  session (handleBackspace learning (handleKeyPress text key now h)) = session h.
Proof.
  intros h Hst Hopen Hleft.
  pose proof (Inv_calls text learning cs (start a) (Inv_initial text)) as Hinv.
  fold h in Hinv. clearbody h. destruct Hinv as [Hi Hc He Hb Ho Hs Hl].
  assert (Hne : Js.isEmpty text = false).
  { destruct (Js.isEmpty text) eqn:E; [|reflexivity].
    apply isEmpty_len in E. lia. }
  destruct h as [[idx tys started done t0 el errs corr] ap]. simpl in *.
  subst started done.
  unfold handleKeyPress. simpl. rewrite Hne. simpl. fold (len text).
  replace (len text <=? idx + 1) with false by (symmetry; apply Z.leb_gt; lia).
  unfold handleBackspace. simpl.
  replace (idx + 1 =? 0) with false by (symmetry; apply Z.eqb_neq; lia).
  rewrite last_snoc, dropLast_snoc. simpl.
  f_equal; [lia| |]; destruct (Js.strictEq key _); simpl; lia.
Qed.

End SessionStoreExtras.

(** X4 on the text "ab" after one key. *)
Lemma store_follows_session_witness :
  Store.isSessionActive
    (Session.app
       (Session.calls "ab" Session.test [Session.KeyPress "a" 0]
          (Session.start (Store.initialState (R := unit)))))
  = true.
Proof.
  rewrite (proj1 (store_follows_session "ab" Session.test
                    (Store.initialState (R := unit))
                    [Session.KeyPress "a" 0] eq_refl)).
  reflexivity.
Defined.

(** X3 in test mode on the text "ab" after the keys 'x' and 'b'. *)
Lemma tally_ledger_witness :
  Store.count
    (Store.mistypedKeys
       (Session.app
          (Session.calls "ab" Session.test
             [Session.KeyPress "x" 0; Session.KeyPress "b" 1]
             (Session.start (Store.initialState (R := unit))))))
    "a"
  = 1%nat.
Proof.
  rewrite (proj2 (tally_ledger "ab" Session.test (Store.initialState (R := unit))
                    [Session.KeyPress "x" 0; Session.KeyPress "b" 1] "a") eq_refl).
  reflexivity.
Defined.

(** X6 on the text "abc" after the key 'a'. *)
Lemma type_then_erase_witness :
  let h := Session.calls "abc" Session.learning [Session.KeyPress "a" 0]
             (Session.start (Store.initialState (R := unit))) in
  Session.session
    (Session.handleBackspace Session.learning (Session.handleKeyPress "abc" "z" 4 h))
  = Session.session h.
Proof.
  apply (type_then_erase "abc" (Store.initialState (R := unit))
           [Session.KeyPress "a" 0] "z" 4); reflexivity.
Defined.

(** ** More on the metrics *)

Section AccuracyFacts.
Import Stats Analytics.
Local Open Scope Q_scope.

Lemma calculateAccuracy_bounds (c t : Q) :
  0 <= c → c <= t → 0 < t →
  0 <= calculateAccuracy c t ∧ calculateAccuracy c t <= 100.
Proof.
  intros Hc Hct Ht. unfold calculateAccuracy.
  rewrite positive_not_le by exact Ht.
  pose proof (div_nonneg c t Hc Ht) as Hq0. pose proof (div_le_one c t Hct Ht) as Hq1.
  set (q := Double.div c t).
  assert (0 <= q ∧ q <= 1) as [Hlo Hhi].
  { unfold q, Double.div. split; [apply round_nonneg; exact Hq0|].
    apply round_mono in Hq1.
    assert (Double.round 1 == 1) as E by (vm_compute; reflexivity). lra. }
  set (a := Double.mul q 100).
  assert (0 <= a ∧ a <= 100) as [Ha0 Ha1].
  { unfold a, Double.mul. split; [apply round_nonneg; lra|].
    assert (q * 100 <= 100) as H by lra. apply round_mono in H.
    assert (Double.round 100 == 100) as E by (vm_compute; reflexivity). lra. }
  pose proof (tenths_mono 0 a Ha0) as T0. pose proof (tenths_mono a 100 Ha1) as T1.
  assert (Double.div (inject_Z (Js.Math_round (Double.mul 0 10))) 10 == 0) as E0
    by (vm_compute; reflexivity).
  assert (Double.div (inject_Z (Js.Math_round (Double.mul 100 10))) 10 == 100) as E1
    by (vm_compute; reflexivity).
  split; lra.
Qed.

(** X7.  [calculateAccuracy]: with a total of 0 or less the accuracy is
    100; when the correct characters are between 0 and a total above 0, the
    result lies between 0 and 100; for a fixed number of correct characters
    it never goes up when a total above 0 (that is, the number of mistakes)
    grows.  From a total of 0 it can go up: 5 correct characters out of 0
    give 100, out of 1 they give 500. *)
Theorem calculateAccuracy_range :
  (∀ c t, t <= 0 → calculateAccuracy c t = 100)
  ∧ (∀ c t, 0 <= c → c <= t → 0 < t →
       0 <= calculateAccuracy c t ∧ calculateAccuracy c t <= 100)
  ∧ (∀ c t t', 0 <= c → 0 < t → t <= t' →
       calculateAccuracy c t' <= calculateAccuracy c t)
  ∧ (calculateAccuracy 5 0 == 100 ∧ calculateAccuracy 5 1 == 500).
Proof.
  split; [|split; [|split; [|split; vm_compute; reflexivity]]].
  - intros c t Ht. unfold calculateAccuracy.
    rewrite (proj2 (Qle_bool_iff t 0) Ht). reflexivity.
  - intros c t Hc Hct Ht. apply calculateAccuracy_bounds; assumption.
  - intros c t t' Hc Ht Htt'. unfold calculateAccuracy.
    rewrite !positive_not_le by lra.
    pose proof (div_antitone c t t' Hc Ht Htt') as Hle.
    apply tenths_mono. unfold Double.mul, Double.div. apply round_mono.
    apply Qmult_le_compat_r; [|discriminate]. apply round_mono. exact Hle.
Qed.

(** The value handed to [Math.round] by [calculateAccuracy] and
    [calculateErrorRate], a thousand times the share [part / total], is off
    by less than a hundredth. *)
Lemma permille_error (part total : Q) :
  0 <= part → part <= total → 0 < total →
  let x := Double.mul (Double.mul (Double.div part total) 100) 10 in
  1000 * (part / total) - (1 # 100) <= x ∧ x <= 1000 * (part / total) + (1 # 100).
Proof.
  intros Hp Hpt Ht x. subst x.
  pose proof (div_nonneg part total Hp Ht) as Hr0.
  pose proof (div_le_one part total Hpt Ht) as Hr1.
  set (r := part / total) in *.
  assert (Double.round 1 == 1) as R1 by (vm_compute; reflexivity).
  assert (Double.round 100 == 100) as R100 by (vm_compute; reflexivity).
  assert (2 ^ (0 - 53) <= 1 # 1000000) as U0 by (vm_compute; discriminate).
  assert (2 ^ (7 - 53) <= 1 # 1000000) as U7 by (vm_compute; discriminate).
  assert (2 ^ (10 - 53) <= 1 # 1000000) as U10 by (vm_compute; discriminate).
  unfold Double.div, Double.mul. fold r.
  destruct (round_error r 0 Hr0 ltac:(change (2 ^ 0) with 1; lra) ltac:(lia)) as [Q1 Q2].
  pose proof (round_nonneg r Hr0) as Q0.
  pose proof (round_mono r 1 Hr1) as Q3.
  set (q := Double.round r) in *.
  assert (0 <= q * 100) as P0 by lra.
  assert (q * 100 <= 100) as P1 by lra.
  destruct (round_error (q * 100) 7 P0 ltac:(change (2 ^ 7) with 128; lra) ltac:(lia))
    as [P2 P3].
  pose proof (round_nonneg (q * 100) P0) as P4.
  pose proof (round_mono (q * 100) 100 P1) as P5.
  set (p := Double.round (q * 100)) in *.
  assert (0 <= p * 10) as X0 by lra.
  assert (p * 10 <= 1000) as X1 by lra.
  destruct (round_error (p * 10) 10 X0 ltac:(change (2 ^ 10) with 1024; lra) ltac:(lia))
    as [X2 X3].
  set (x := Double.round (p * 10)) in *.
  split; lra.
Qed.

(** X8.  Accuracy and error rate of the same keystrokes: when the correct
    and the wrong characters make up the total, [calculateAccuracy] and
    [calculateErrorRate] are whole numbers of tenths ([a / 10] and [b / 10]
    as doubles) that add up to 999, 1000 or 1001 tenths, so the two figures
    shown add up to 100 give or take 0.1.  Both ends occur: 241 correct
    characters out of 2000 give 12 and 87.9, 1 out of 16 gives 6.3 and
    93.8. *)
Theorem accuracy_plus_error_rate (c e : Z) :
  (0 <= c)%Z → (0 <= e)%Z → (0 < c + e)%Z →
  (∃ a b : Z,
     calculateAccuracy (inject_Z c) (inject_Z (c + e)) = Double.div (inject_Z a) 10
     ∧ calculateErrorRate (inject_Z e) (inject_Z (c + e)) = Double.div (inject_Z b) 10
     ∧ (999 <= a + b)%Z ∧ (a + b <= 1001)%Z)
  ∧ (calculateAccuracy 241 2000 == Double.literal 12
     ∧ calculateErrorRate 1759 2000 == Double.literal (879 # 10))
  ∧ (calculateAccuracy 1 16 == Double.literal (63 # 10)
     ∧ calculateErrorRate 15 16 == Double.literal (938 # 10)).
Proof.
  intros Hc He Ht.
  split; [|split; split; vm_compute; reflexivity].
  assert (0 < inject_Z (c + e)) as Hq.
  { change 0 with (inject_Z 0). rewrite <- Zlt_Qlt. exact Ht. }
  assert (0 <= inject_Z c) as Hqc.
  { change 0 with (inject_Z 0). rewrite <- Zle_Qle. exact Hc. }
  assert (0 <= inject_Z e) as Hqe.
  { change 0 with (inject_Z 0). rewrite <- Zle_Qle. exact He. }
  assert (inject_Z c <= inject_Z (c + e)) as Hct by (rewrite <- Zle_Qle; lia).
  assert (inject_Z e <= inject_Z (c + e)) as Het by (rewrite <- Zle_Qle; lia).
  unfold calculateAccuracy, calculateErrorRate.
  rewrite !positive_not_le by exact Hq.
  destruct (permille_error _ _ Hqc Hct Hq) as [A1 A2].
  destruct (permille_error _ _ Hqe Het Hq) as [B1 B2].
  set (x := Double.mul (Double.mul (Double.div (inject_Z c) (inject_Z (c + e))) 100) 10) in *.
  set (y := Double.mul (Double.mul (Double.div (inject_Z e) (inject_Z (c + e))) 100) 10) in *.
  exists (Js.Math_round x), (Js.Math_round y).
  split; [reflexivity|]. split; [reflexivity|].
  assert (inject_Z c / inject_Z (c + e) + inject_Z e / inject_Z (c + e) == 1) as Hsum.
  { rewrite inject_Z_plus in *. field. lra. }
  destruct (Math_round_error x) as [Hx1 Hx2].
  destruct (Math_round_error y) as [Hy1 Hy2].
  set (rx := Js.Math_round x) in *. set (ry := Js.Math_round y) in *.
  assert (inject_Z 998 < inject_Z (rx + ry)) as Hlo.
  { rewrite inject_Z_plus. change (inject_Z 998) with 998. lra. }
  assert (inject_Z (rx + ry) < inject_Z 1002) as Hhi.
  { rewrite inject_Z_plus. change (inject_Z 1002) with 1002. lra. }
  rewrite <- Zlt_Qlt in Hlo, Hhi. lia.
Qed.
End AccuracyFacts.

(** X8 at 7 correct and 2 wrong characters. *)
Lemma accuracy_plus_error_rate_witness :
  ∃ a b : Z,
    Stats.calculateAccuracy (inject_Z 7) (inject_Z (7 + 2)) = Double.div (inject_Z a) 10
    ∧ Analytics.calculateErrorRate (inject_Z 2) (inject_Z (7 + 2))
      = Double.div (inject_Z b) 10
    ∧ 999 ≤ a + b ∧ a + b ≤ 1001.
Proof.
  exact (proj1 (accuracy_plus_error_rate 7 2
                  ltac:(discriminate) ltac:(discriminate) ltac:(reflexivity))).
Defined.

(** X7 at 3 correct characters out of 4, then out of 5. *)
Lemma calculateAccuracy_range_witness :
  (Stats.calculateAccuracy 3 5 <= Stats.calculateAccuracy 3 4)%Q.
Proof.
  apply (proj1 (proj2 (proj2 calculateAccuracy_range)) 3%Q 4%Q 5%Q);
    first [reflexivity | discriminate].
Defined.

Section SessionRanges.
Import Store Session SessionInv SessionView.
Context {H : Type}.
Implicit Types (a : AppState H (gmap string nat)).
Local Open Scope Q_scope.

Lemma countCorrect_le l : (countCorrect l ≤ length l)%nat.
Proof. pose proof (count_total l). lia. Qed.

(** X9.  In every state reached from the initial one, the accuracy shown
    lies between 0 and 100 and so does the progress; on a non-empty text the
    progress is 100 exactly when the cursor is at the end of the text. *)
Theorem session_ranges (text : string) (mode : Mode) a (cs : list Call) :
  let s := session (calls text mode cs (start a)) in
  (0 <= accuracy s ∧ accuracy s <= 100)
  ∧ (0 <= progress text s ∧ progress text s <= 100)
  ∧ (text ≠ "" → (progress text s == 100 ↔ currentIndex s = len text)).
Proof.
  intros s.
  pose proof (Inv_calls text mode cs (start a) (Inv_initial text)) as Hinv.
  fold s in Hinv. destruct Hinv as [Hi Hc _ Hb _ _ _].
  assert (0 <= currentIndex s)%Z as Hpos by lia.
  repeat apply conj.
  - unfold accuracy, totalTyped. rewrite Hc.
    destruct (typedChars s) as [|e l] eqn:Hty.
    + discriminate.
    + apply calculateAccuracy_bounds.
      * change 0 with (inject_Z 0). rewrite <- Zle_Qle. lia.
      * rewrite <- Zle_Qle. pose proof (countCorrect_le (e :: l)). lia.
      * change 0 with (inject_Z 0). rewrite <- Zlt_Qlt. simpl length. lia.
  - unfold accuracy, totalTyped. rewrite Hc.
    destruct (typedChars s) as [|e l] eqn:Hty.
    + discriminate.
    + apply calculateAccuracy_bounds.
      * change 0 with (inject_Z 0). rewrite <- Zle_Qle. lia.
      * rewrite <- Zle_Qle. pose proof (countCorrect_le (e :: l)). lia.
      * change 0 with (inject_Z 0). rewrite <- Zlt_Qlt. simpl length. lia.
  - unfold progress. destruct (Js.isEmpty text) eqn:E; [discriminate|].
    fold (len text).
    assert (0 < inject_Z (len text)) as Hlen.
    { change 0 with (inject_Z 0). rewrite <- Zlt_Qlt. unfold len.
      destruct text; [discriminate|simpl; lia]. }
    assert (0 <= inject_Z (currentIndex s)) as Hidx.
    { change 0 with (inject_Z 0). rewrite <- Zle_Qle. exact Hpos. }
    pose proof (div_nonneg _ _ Hidx Hlen). lra.
  - unfold progress. destruct (Js.isEmpty text) eqn:E; [discriminate|].
    fold (len text).
    assert (0 < inject_Z (len text)) as Hlen.
    { change 0 with (inject_Z 0). rewrite <- Zlt_Qlt. unfold len.
      destruct text; [discriminate|simpl; lia]. }
    assert (inject_Z (currentIndex s) <= inject_Z (len text)) as Hidx.
    { rewrite <- Zle_Qle. exact Hb. }
    pose proof (div_le_one _ _ Hidx Hlen). lra.
  - intros Hne. unfold progress.
    destruct (Js.isEmpty text) eqn:E; [destruct text; [contradiction|discriminate]|].
    fold (len text).
    assert (0 < inject_Z (len text)) as Hlen.
    { change 0 with (inject_Z 0). rewrite <- Zlt_Qlt. unfold len.
      destruct text; [discriminate|simpl; lia]. }
    assert (inject_Z (currentIndex s)
            == inject_Z (currentIndex s) / inject_Z (len text) * inject_Z (len text))
      as Hmul by (field; lra).
    split.
    + intros Hp.
      assert (inject_Z (currentIndex s) / inject_Z (len text) == 1) as H1 by lra.
      rewrite H1 in Hmul. apply inject_Z_injective. lra.
    + intros ->. field. lra.
Qed.

End SessionRanges.

(** X9 at the end of the text "hi". *)
Lemma session_ranges_witness :
  let s := Session.session
             (Session.calls "hi" Session.test
                [Session.KeyPress "h" 0; Session.KeyPress "x" 1]
                (Session.start (Store.initialState (R := unit)))) in
  (SessionView.progress "hi" s == 100)%Q.
Proof.
  apply (proj2 (proj2 (session_ranges "hi" Session.test
                         (Store.initialState (R := unit))
                         [Session.KeyPress "h" 0; Session.KeyPress "x" 1]))
           ltac:(discriminate)).
  reflexivity.
Defined.

(** ** Ratings and recommendations *)

Section RatingFacts.
Import Analytics.
Local Open Scope Q_scope.

Lemma Qle_bool_false (x y : Q) : Qle_bool x y = false → y < x.
Proof.
  intros Hb. apply Qnot_le_lt. intros Hle.
  apply Qle_bool_iff in Hle. congruence.
Qed.

Ltac split_tests :=
  repeat match goal with
    | |- context [Qle_bool ?x ?y] =>
        let E := fresh "E" in
        destruct (Qle_bool x y) eqn:E;
        [apply Qle_bool_iff in E | apply Qle_bool_false in E];
        cbn [andb negb rank]
    end.

Lemma rank_thresholds (wpm accuracy : Q) :
  let r := rank (getPerformanceRating wpm accuracy) in
  ((4 ≤ r)%nat ↔ 95 <= accuracy ∧ 60 <= wpm)
  ∧ ((3 ≤ r)%nat ↔ 90 <= accuracy ∧ 45 <= wpm)
  ∧ ((2 ≤ r)%nat ↔ 85 <= accuracy ∧ 30 <= wpm)
  ∧ ((1 ≤ r)%nat ↔ 80 <= accuracy ∧ 20 <= wpm).
Proof.
  unfold getPerformanceRating. cbv zeta.
  split_tests; repeat apply conj;
    first [ intros [? ?]; first [lia | lra] | intros ?; first [lia | split; lra] ].
Qed.

(** X10.  The rating is monotone: more words per minute together with a
    higher accuracy never give a lower rating, and a rating is reached
    exactly when both of its thresholds are (Excellent 95/60, Great 90/45,
    Good 85/30, Fair 80/20). *)
Theorem getPerformanceRating_monotone (wpm wpm' accuracy accuracy' : Q) :
  wpm <= wpm' → accuracy <= accuracy' →
  (rank (getPerformanceRating wpm accuracy)
   ≤ rank (getPerformanceRating wpm' accuracy'))%nat
  ∧ (getPerformanceRating wpm accuracy = Excellent ↔ 95 <= accuracy ∧ 60 <= wpm)
  ∧ (getPerformanceRating wpm accuracy = KeepPracticing
     ↔ ¬ (80 <= accuracy ∧ 20 <= wpm)).
Proof.
  intros Hw Ha.
  destruct (rank_thresholds wpm accuracy) as (H4 & H3 & H2 & H1).
  destruct (rank_thresholds wpm' accuracy') as (H4' & H3' & H2' & H1').
  cbv zeta in *. split; [|split].
  - destruct (getPerformanceRating wpm accuracy) eqn:Er; cbn [rank] in *.
    + apply H4'. destruct (proj1 H4 ltac:(lia)). split; lra.
    + apply H3'. destruct (proj1 H3 ltac:(lia)). split; lra.
    + apply H2'. destruct (proj1 H2 ltac:(lia)). split; lra.
    + apply H1'. destruct (proj1 H1 ltac:(lia)). split; lra.
    + lia.
  - rewrite <- H4. destruct (getPerformanceRating wpm accuracy); cbn [rank];
      split; intros; first [reflexivity | discriminate | lia].
  - rewrite <- H1. destruct (getPerformanceRating wpm accuracy); cbn [rank];
      split; intros; first [reflexivity | discriminate | lia].
Qed.

Lemma elem_of_difficultyOrder (d : string) :
  d ∈ difficultyOrder
  ↔ d = "Beginner" ∨ d = "Easy" ∨ d = "Intermediate" ∨ d = "Advanced" ∨ d = "Expert".
Proof.
  unfold difficultyOrder. rewrite !elem_of_cons, elem_of_nil. tauto.
Qed.

Lemma indexOf_difficultyOrder (d : string) :
  (d = "Beginner" ∧ JsLib.indexOf difficultyOrder d = 0%Z)
  ∨ (d = "Easy" ∧ JsLib.indexOf difficultyOrder d = 1%Z)
  ∨ (d = "Intermediate" ∧ JsLib.indexOf difficultyOrder d = 2%Z)
  ∨ (d = "Advanced" ∧ JsLib.indexOf difficultyOrder d = 3%Z)
  ∨ (d = "Expert" ∧ JsLib.indexOf difficultyOrder d = 4%Z)
  ∨ ((d ∉ difficultyOrder) ∧ JsLib.indexOf difficultyOrder d = (-1)%Z).
Proof.
  destruct (decide (d = "Beginner")) as [->|H0]; [left; split; reflexivity|].
  destruct (decide (d = "Easy")) as [->|H1]; [right; left; split; reflexivity|].
  destruct (decide (d = "Intermediate")) as [->|H2];
    [right; right; left; split; reflexivity|].
  destruct (decide (d = "Advanced")) as [->|H3];
    [right; right; right; left; split; reflexivity|].
  destruct (decide (d = "Expert")) as [->|H4];
    [right; right; right; right; left; split; reflexivity|].
  right; right; right; right; right. split.
  - rewrite elem_of_difficultyOrder. intros [?|[?|[?|[?|?]]]]; contradiction.
  - unfold difficultyOrder. simpl.
    rewrite !bool_decide_eq_false_2 by congruence. reflexivity.
Qed.

(** X11.  [getDifficultyRecommendation] stays on the ladder of levels:
    with fewer than three sessions it says to continue; when it says to
    increase, the current level is not Expert and the next level is the one
    right after it (Beginner for a level that is not on the ladder); when it
    says to decrease, the current level is on the ladder, is not Beginner,
    and the next level is the one right before it; when it says to continue
    it names no next level. *)
Theorem getDifficultyRecommendation_ladder
    (recentSessions : list SessionRecord) (d : string) :
  let r := getDifficultyRecommendation recentSessions d in
  ((length recentSessions < 3)%nat → recommendation r = "continue")
  ∧ (recommendation r = "increase" →
     d ≠ "Expert"
     ∧ ∃ next, nextDifficulty r = Some next
               ∧ JsLib.indexOf difficultyOrder next
                 = (JsLib.indexOf difficultyOrder d + 1)%Z)
  ∧ (recommendation r = "decrease" →
     d ∈ difficultyOrder ∧ d ≠ "Beginner"
     ∧ ∃ next, nextDifficulty r = Some next
               ∧ JsLib.indexOf difficultyOrder next
                 = (JsLib.indexOf difficultyOrder d - 1)%Z)
  ∧ (recommendation r = "continue" → nextDifficulty r = None).
Proof.
  intros r. subst r. unfold getDifficultyRecommendation.
  destruct (length recentSessions <? 3)%nat eqn:Hlen.
  { repeat apply conj; intros; first [reflexivity | discriminate]. }
  apply Nat.ltb_ge in Hlen. cbv zeta.
  destruct (Qle_bool 90 _ && Qle_bool 40 _);
    [|destruct (negb (Qle_bool 70 _))];
    destruct (indexOf_difficultyOrder d)
      as [[-> ->]|[[-> ->]|[[-> ->]|[[-> ->]|[[-> ->]|[Hout ->]]]]]];
    cbn; repeat apply conj; intros;
    first [ lia | reflexivity | discriminate
          | split; [discriminate|]; eexists; split; reflexivity
          | split; [intros ->; apply Hout; apply elem_of_difficultyOrder; tauto|];
            eexists; split; reflexivity
          | split; [apply elem_of_difficultyOrder; tauto|];
            split; [discriminate|]; eexists; split; reflexivity ].
Qed.

End RatingFacts.

(** X10 for 50 and 65 words per minute at 96 percent. *)
Lemma getPerformanceRating_monotone_witness :
  (Analytics.rank (Analytics.getPerformanceRating 50 96)
   ≤ Analytics.rank (Analytics.getPerformanceRating 65 96))%nat.
Proof.
  apply (getPerformanceRating_monotone 50 65 96 96); discriminate.
Defined.

(** ** Sorting, the most mistyped keys, the difficulty levels *)

Section SortFacts.
Context {A : Type} (key : A → Z) (cmp : A → A → Z).
Hypothesis cmp_key : ∀ x y, cmp x y = key x - key y.

Lemma insertSorted_Permutation x l : JsLib.insertSorted cmp x l ≡ₚ x :: l.
Proof.
  induction l as [|y l IH]; simpl; [reflexivity|].
  destruct (cmp x y <=? 0); [reflexivity|].
  rewrite IH. apply Permutation_swap.
Qed.

Lemma sort_Permutation l : JsLib.sort cmp l ≡ₚ l.
Proof.
  induction l as [|x l IH]; simpl; [reflexivity|].
  rewrite insertSorted_Permutation, IH. reflexivity.
Qed.

Lemma insertSorted_sorted x l :
  StronglySorted (λ a b, key a ≤ key b) l →
  StronglySorted (λ a b, key a ≤ key b) (JsLib.insertSorted cmp x l).
Proof.
  induction l as [|y l IH]; intros Hl; simpl.
  - repeat constructor.
  - apply StronglySorted_inv in Hl as [Hl Hy].
    destruct (cmp x y <=? 0) eqn:Hxy.
    + apply Z.leb_le in Hxy. rewrite cmp_key in Hxy.
      constructor; [constructor; assumption|].
      constructor; [lia|].
      eapply Forall_impl; [exact Hy|]. simpl. intros z Hz. lia.
    + apply Z.leb_gt in Hxy. rewrite cmp_key in Hxy.
      constructor; [apply IH; exact Hl|].
      rewrite insertSorted_Permutation. constructor; [lia|exact Hy].
Qed.

Lemma sort_sorted l : StronglySorted (λ a b, key a ≤ key b) (JsLib.sort cmp l).
Proof.
  induction l as [|x l IH]; simpl; [constructor|].
  apply insertSorted_sorted. exact IH.
Qed.

End SortFacts.

Section TopKeys.
Import Analytics.

(** X12.  [getTopMistypedKeys] returns [n] entries, or all of them when
    there are fewer, ordered by count from the highest down; they are entries
    of the tally, and no entry left out has a higher count than one
    returned. *)
Theorem getTopMistypedKeys_top (entries : list (string * nat)) (n : nat) :
  let top := getTopMistypedKeys entries n in
  length top = (n `min` length entries)%nat
  ∧ StronglySorted (λ a b, b.2 ≤ a.2)%nat top
  ∧ (∃ rest, top ++ rest ≡ₚ entries
             ∧ ∀ x y, x ∈ top → y ∈ rest → (y.2 ≤ x.2)%nat)
  ∧ (∀ (tally : gmap string nat) x,
       entries = map_to_list tally → x ∈ top → tally !! x.1 = Some x.2).
Proof.
  intros top. subst top. unfold getTopMistypedKeys, Js.sliceTo.
  set (cmp := λ a b : string * nat, Z.of_nat b.2 - Z.of_nat a.2).
  set (key := λ a : string * nat, - Z.of_nat a.2).
  assert (Hcmp : ∀ x y, cmp x y = key x - key y) by (intros; unfold cmp, key; lia).
  pose proof (sort_Permutation cmp entries) as Hperm.
  pose proof (sort_sorted key cmp Hcmp entries) as Hsorted.
  set (sorted := JsLib.sort cmp entries) in *.
  assert (Hdesc : StronglySorted (λ a b : string * nat, (b.2 ≤ a.2)%nat) sorted).
  { clear -Hsorted. induction Hsorted as [|x l Hl IH Hx]; constructor; [exact IH|].
    eapply Forall_impl; [exact Hx|]. unfold key. simpl. intros; lia. }
  rewrite <- (take_drop n sorted) in Hdesc, Hperm.
  repeat apply conj.
  - rewrite length_take, <- (Permutation_length (sort_Permutation cmp entries)).
    reflexivity.
  - eapply StronglySorted_app_1_l. exact Hdesc.
  - exists (drop n sorted). split; [exact Hperm|].
    intros x y Hx Hy.
    exact (StronglySorted_app_1_elem_of _ _ _ x y Hdesc Hx Hy).
  - intros tally x -> Hx. apply elem_of_map_to_list'.
    rewrite <- Hperm. apply elem_of_app. left. exact Hx.
Qed.

End TopKeys.

Section Levels.
Import Csv.

Lemma distinctFrom_spec seen l x :
  x ∈ JsLib.distinctFrom seen l ↔ x ∈ l ∧ x ∉ seen.
Proof.
  revert seen. induction l as [|y l IH]; intros seen; simpl.
  - rewrite !elem_of_nil. tauto.
  - destruct (bool_decide (y ∈ seen)) eqn:Hy.
    + apply bool_decide_eq_true in Hy. rewrite IH, elem_of_cons.
      split; [tauto|]. intros [[->|Hx] Hs]; [contradiction|tauto].
    + apply bool_decide_eq_false in Hy. rewrite !elem_of_cons, IH, elem_of_cons.
      split.
      * intros [->|[Hx Hs]]; [tauto|]. tauto.
      * intros [[->|Hx] Hs]; [tauto|].
        destruct (decide (x = y)) as [->|Hne]; [tauto|]. tauto.
Qed.

Lemma distinctFrom_NoDup seen l : NoDup (JsLib.distinctFrom seen l).
Proof.
  revert seen. induction l as [|y l IH]; intros seen; simpl; [constructor|].
  destruct (bool_decide (y ∈ seen)); [apply IH|].
  constructor; [|apply IH].
  rewrite distinctFrom_spec, elem_of_cons. tauto.
Qed.

(** X13.  [getDifficultyLevels] lists every difficulty that occurs among
    the exercises exactly once, in the order of the ladder (Beginner, Easy,
    Intermediate, Advanced, Expert), any level that is not on the ladder
    coming first. *)
Theorem getDifficultyLevels_ordered (exercises : list Exercise) :
  let levels := getDifficultyLevels exercises in
  NoDup levels
  ∧ (∀ d, d ∈ levels ↔ ∃ ex, ex ∈ exercises ∧ difficulty ex = d)
  ∧ StronglySorted
      (λ a b, JsLib.indexOf Analytics.difficultyOrder a
              ≤ JsLib.indexOf Analytics.difficultyOrder b) levels.
Proof.
  intros levels. subst levels. unfold getDifficultyLevels. cbv zeta.
  set (key := JsLib.indexOf Analytics.difficultyOrder).
  set (cmp := λ a b : string, key a - key b).
  assert (Hcmp : ∀ x y, cmp x y = key x - key y) by reflexivity.
  pose proof (sort_Permutation cmp (JsLib.distinct (difficulty <$> exercises)))
    as Hperm.
  split; [|split].
  - rewrite Hperm. apply distinctFrom_NoDup.
  - intros d. rewrite Hperm. unfold JsLib.distinct.
    rewrite distinctFrom_spec, list_elem_of_fmap. split.
    + intros [(ex & -> & Hex) _]. exists ex. tauto.
    + intros (ex & Hex & <-). split; [|apply not_elem_of_nil].
      exists ex. tauto.
  - apply (sort_sorted key cmp Hcmp).
Qed.

(** X14.  [getRandomExercise] returns nothing exactly when no exercise has
    the requested difficulty; otherwise, for a random number in [0, 1), it
    returns one of the exercises, of the requested difficulty. *)
Theorem getRandomExercise_of_level (exercises : list Exercise) (level : string)
    (random : Q) :
  (0 <= random)%Q → (random < 1)%Q →
  (getRandomExercise exercises level random = None
   ↔ ∀ ex, ex ∈ exercises → difficulty ex ≠ level)
  ∧ (∀ ex, getRandomExercise exercises level random = Some ex →
           ex ∈ exercises ∧ difficulty ex = level).
Proof.
  intros H0 H1. unfold getRandomExercise, getExercisesByDifficulty. cbv zeta.
  set (filtered := List.filter (λ ex, bool_decide (difficulty ex = level)) exercises).
  assert (Hmem : ∀ ex, ex ∈ filtered ↔ ex ∈ exercises ∧ difficulty ex = level).
  { intros ex. unfold filtered. rewrite !list_elem_of_In, List.filter_In.
    rewrite bool_decide_eq_true. reflexivity. }
  destruct (length filtered =? 0)%nat eqn:Hlen.
  - apply Nat.eqb_eq in Hlen. apply nil_length_inv in Hlen.
    split; [|discriminate]. split; [|reflexivity].
    intros _ ex Hex Hd. assert (ex ∈ filtered) as Hin by (apply Hmem; tauto).
    rewrite Hlen in Hin. apply elem_of_nil in Hin. exact Hin.
  - apply Nat.eqb_neq in Hlen.
    set (n := Z.of_nat (length filtered)).
    assert (0 < inject_Z n)%Q as Hn.
    { change 0%Q with (inject_Z 0). rewrite <- Zlt_Qlt. unfold n. lia. }
    assert (0 <= Qfloor (random * inject_Z n) < n) as Hidx.
    { split.
      - change 0 with (Qfloor 0). apply Qfloor_resp_le.
        apply Qmult_le_0_compat; [exact H0|apply Qlt_le_weak; exact Hn].
      - rewrite Zlt_Qlt. eapply Qle_lt_trans; [apply Qfloor_le|].
        assert (random * inject_Z n < 1 * inject_Z n)%Q
          by (apply Qmult_lt_compat_r; assumption).
        lra. }
    unfold JsLib.at_. rewrite (proj2 (Z.ltb_ge _ 0)) by lia.
    destruct (filtered !! Z.to_nat (Qfloor (random * inject_Z n))) as [ex|] eqn:Hex.
    + split.
      * split; [discriminate|]. intros Hnone. exfalso.
        apply list_elem_of_lookup_2 in Hex. apply Hmem in Hex as [Hex Hd].
        exact (Hnone ex Hex Hd).
      * intros ex' [= <-]. apply Hmem. eapply list_elem_of_lookup_2. exact Hex.
    + apply lookup_ge_None in Hex. unfold n in *. lia.
Qed.

End Levels.

(** ** Summary and trends of the history *)

Section SummaryFacts.
Import Analytics.
Local Open Scope Q_scope.

Lemma Math_max_ge (x : Q) (rest : list Q) :
  x <= JsLib.Math_max x rest ∧ Forall (λ y, y <= JsLib.Math_max x rest) rest.
Proof.
  unfold JsLib.Math_max. revert x. induction rest as [|y rest IH]; intros x; simpl.
  - split; [lra|constructor].
  - destruct (IH (Qmax x y)) as [Hx Hrest].
    pose proof (Q.le_max_l x y). pose proof (Q.le_max_r x y).
    split; [lra|]. constructor; [lra|exact Hrest].
Qed.

Lemma Math_max_attained (x : Q) (rest : list Q) :
  JsLib.Math_max x rest ∈ x :: rest.
Proof.
  unfold JsLib.Math_max. revert x. induction rest as [|y rest IH]; intros x; simpl.
  - apply list_elem_of_here.
  - specialize (IH (Qmax x y)). apply elem_of_cons in IH as [->|IH].
    + unfold Qmax, GenericMinMax.gmax. destruct (x ?= y);
        rewrite !elem_of_cons; tauto.
    + rewrite !elem_of_cons. tauto.
Qed.

Lemma Math_max_member {A} (f : A → Q) (s : A) (rest : list A) :
  ∃ s', s' ∈ s :: rest ∧ JsLib.Math_max (f s) (f <$> rest) = f s'.
Proof.
  pose proof (Math_max_attained (f s) (f <$> rest)) as Hmax.
  apply elem_of_cons in Hmax as [Hmax|Hmax].
  - exists s. split; [apply list_elem_of_here|exact Hmax].
  - apply list_elem_of_fmap in Hmax as (s' & Hs' & Hin).
    exists s'. split; [apply list_elem_of_further; exact Hin|exact Hs'].
Qed.

Lemma Math_max_bound {A} (f : A → Q) (s : A) (rest : list A) (s' : A) :
  s' ∈ s :: rest → f s' <= JsLib.Math_max (f s) (f <$> rest).
Proof.
  intros Hin. destruct (Math_max_ge (f s) (f <$> rest)) as [Hs Hrest].
  apply elem_of_cons in Hin as [->|Hin]; [exact Hs|].
  apply (proj1 (Forall_forall _ _) Hrest). apply list_elem_of_fmap.
  exists s'. split; [reflexivity|exact Hin].
Qed.

(** X15.  [getStatsSummary] of a non-empty history: the number of
    sessions is the length of the history; the best speed is the rounded
    speed of one of the sessions and no session's rounded speed is above it,
    and the same holds of the best accuracy; the result has no [totalTime],
    which only the summary of the empty history carries.  The average speed
    can be above the best speed: the average of three sessions at
    0.8499999999999999 is shown as 0.9, their best as 0.8. *)
Theorem getStatsSummary_nonempty (history : list SessionRecord) :
  history ≠ [] →
  let sm := getStatsSummary history in
  totalSessions sm = Z.of_nat (length history)
  ∧ (∃ s, s ∈ history ∧ bestWPM sm = round1 (wpm s))
  ∧ (∀ s, s ∈ history → round1 (wpm s) <= bestWPM sm)
  ∧ (∃ s, s ∈ history ∧ bestAccuracy sm = round1 (accuracy s))
  ∧ (∀ s, s ∈ history → round1 (accuracy s) <= bestAccuracy sm)
  ∧ totalTime sm = None
  ∧ totalTime (getStatsSummary []) = Some 0
  ∧ (let w := Double.literal (8499999999999999 # 10000000000000000) in
     let r := mkSessionRecord "t" "test" "Easy" w 100 10 0 None None in
     avgWPM (getStatsSummary [r; r; r]) == Double.literal (9 # 10)
     ∧ bestWPM (getStatsSummary [r; r; r]) == Double.literal (8 # 10)).
Proof.
  intros Hne sm. destruct history as [|s rest]; [contradiction|].
  subst sm. cbn [getStatsSummary totalSessions avgWPM avgAccuracy bestWPM
                 bestAccuracy totalTime].
  repeat apply conj; try reflexivity.
  - destruct (Math_max_member wpm s rest) as (s' & Hin & ->). exists s'. tauto.
  - intros s' Hin. apply tenths_mono. apply Math_max_bound. exact Hin.
  - destruct (Math_max_member accuracy s rest) as (s' & Hin & ->). exists s'. tauto.
  - intros s' Hin. apply tenths_mono. apply Math_max_bound. exact Hin.
Qed.

(** X16.  The sessions charted by [calculateTrends] after any number of
    recorded sessions are the latest ones, [limit] of them and never more
    than 100, in the order in which they were played. *)
Theorem trendSessions_chronological (payloads : list SessionRecord) (limit : nat) :
  trendSessions
    (Store.history
       (foldl Store.appReducer Store.initialState
          (Store.A_ADD_HISTORY <$> payloads)))
    limit
  = drop (length payloads - limit `min` 100) payloads.
Proof.
  rewrite history_after_sessions. unfold trendSessions, Js.sliceTo.
  rewrite take_take.
  rewrite firstn_rev, rev_involutive. reflexivity.
Qed.

End SummaryFacts.

(** X15 for a history of two sessions. *)
Lemma getStatsSummary_nonempty_witness :
  Analytics.totalSessions
    (Analytics.getStatsSummary
       [Analytics.mkSessionRecord "t1" "test" "Easy" 40 95 100 5 None (Some 60000);
        Analytics.mkSessionRecord "t0" "learning" "Easy" 30 90 80 8 None None])
  = 2.
Proof.
  exact (proj1 (getStatsSummary_nonempty
                  [Analytics.mkSessionRecord "t1" "test" "Easy" 40 95 100 5
                     None (Some 60000);
                   Analytics.mkSessionRecord "t0" "learning" "Easy" 30 90 80 8
                     None None]
                  ltac:(discriminate))).
Defined.

(** ** More on the countdown timer *)

Section TimerExtras.
Import Timer TimerView.

Lemma step_accounting e t :
  0 ≤ timeRemaining t →
  match e with Reset _ => False | _ => True end →
  timeRemaining (step e t) = timeRemaining t - effectiveTicks [e] t
  ∧ 0 ≤ timeRemaining (step e t)
  ∧ 0 ≤ effectiveTicks [e] t.
Proof.
  intros Hpos He. destruct e; try contradiction; simpl.
  - unfold start. destruct (isRunning t || isFinished t); simpl; lia.
  - lia.
  - unfold tick. destruct (intervalActive t) eqn:Ha; simpl; [|lia].
    unfold intervalActive in Ha. apply andb_true_iff in Ha as [_ Ha].
    apply Z.ltb_lt in Ha.
    destruct (timeRemaining t <=? 1) eqn:Hle; simpl.
    + apply Z.leb_le in Hle. lia.
    + lia.
Qed.

Lemma run_accounting es t :
  noReset es = true → 0 ≤ timeRemaining t →
  timeRemaining (run es t) = timeRemaining t - effectiveTicks es t
  ∧ 0 ≤ timeRemaining (run es t)
  ∧ 0 ≤ effectiveTicks es t.
Proof.
  revert t. induction es as [|e es IH]; intros t Hes Hpos; [simpl; lia|].
  simpl in Hes. apply andb_true_iff in Hes as [He Hes].
  destruct (step_accounting e t Hpos) as (H1 & H2 & H3).
  { destruct e; try exact I. discriminate. }
  rewrite run_cons. destruct (IH (step e t) Hes H2) as (I1 & I2 & I3).
  cbn [effectiveTicks] in *. split; [|split]; lia.
Qed.

Lemma finished_iff_zero es D :
  0 < D → noReset es = true →
  (isFinished (run es (useTimer D)) = true ↔ timeRemaining (run es (useTimer D)) = 0).
Proof.
  intros HD Hes.
  assert (Hinv : ∀ es t, noReset es = true →
            (isFinished t = true ↔ timeRemaining t = 0) → 0 ≤ timeRemaining t →
            (isFinished (run es t) = true ↔ timeRemaining (run es t) = 0)).
  { clear. induction es as [|e es IH]; intros t Hes Ht Hpos; [exact Ht|].
    simpl in Hes. apply andb_true_iff in Hes as [He Hes].
    rewrite run_cons. apply IH; [exact Hes| |].
    - destruct e; try discriminate; simpl.
      + unfold start. destruct (isRunning t || isFinished t); exact Ht.
      + exact Ht.
      + unfold tick. destruct (intervalActive t) eqn:Ha; [|exact Ht].
        unfold intervalActive in Ha. apply andb_true_iff in Ha as [_ Ha].
        apply Z.ltb_lt in Ha.
        destruct (timeRemaining t <=? 1) eqn:Hle; simpl; [tauto|].
        apply Z.leb_gt in Hle. split; [|lia].
        intros Hf. apply Ht in Hf. lia.
    - destruct (step_accounting e t Hpos) as (_ & H2 & _); [|exact H2].
      destruct e; try exact I. discriminate. }
  apply Hinv; [exact Hes| |simpl; lia].
  simpl. split; [discriminate|lia].
Qed.

(** X17.  The countdown counts only the ticks that find the timer
    running: for a timer created with [D > 0] seconds, after any sequence of
    [start], [pause] and ticks the remaining time is [D] minus the number of
    ticks that fired while it was running with time left; it stays between 0
    and [D], the progress between 0 and 100, the timer is finished exactly
    when the remaining time is 0, and a paused timer ignores every tick. *)
Theorem timer_accounting (D : Z) (es : list Event) :
  0 < D → noReset es = true →
  let t := run es (useTimer D) in
  timeRemaining t = D - effectiveTicks es (useTimer D)
  ∧ 0 ≤ timeRemaining t ≤ D
  ∧ (0 <= progress D t ∧ progress D t <= 100)%Q
  ∧ (isFinished t = true ↔ timeRemaining t = 0)
  ∧ (∀ n, ticks n (pause t) = pause t).
Proof.
  intros HD Hes t.
  destruct (run_accounting es (useTimer D) Hes) as (H1 & H2 & H3); [simpl; lia|].
  fold t in H1, H2. simpl in H1.
  assert (0 < inject_Z D)%Q as HDq.
  { change 0%Q with (inject_Z 0). rewrite <- Zlt_Qlt. exact HD. }
  repeat apply conj; try lia.
  - unfold progress.
    assert (0 <= inject_Z (D - timeRemaining t))%Q as Hn.
    { change 0%Q with (inject_Z 0). rewrite <- Zle_Qle. lia. }
    pose proof (div_nonneg _ _ Hn HDq). lra.
  - unfold progress.
    assert (inject_Z (D - timeRemaining t) <= inject_Z D)%Q as Hn.
    { rewrite <- Zle_Qle. lia. }
    pose proof (div_le_one _ _ Hn HDq). lra.
  - apply (proj1 (finished_iff_zero es D HD Hes)).
  - apply (proj2 (finished_iff_zero es D HD Hes)).
  - intros n. unfold ticks. induction n as [|n IH]; [reflexivity|].
    simpl replicate. rewrite run_cons. exact IH.
Qed.




End TimerExtras.

(** X17 for a test timer that is started, ticks twice, is paused and
    ticks again. *)
Lemma timer_accounting_witness :
  Timer.timeRemaining
    (Timer.run [Timer.Start; Timer.Tick; Timer.Tick; Timer.Pause; Timer.Tick]
       (Timer.useTimer 60))
  = 60 - 2.
Proof.
  rewrite (proj1 (timer_accounting 60
                    [Timer.Start; Timer.Tick; Timer.Tick; Timer.Pause; Timer.Tick]
                    ltac:(reflexivity) ltac:(reflexivity))).
  reflexivity.
Defined.


(** ** The keyboard listener, the tally, the import *)

Section ListenerFacts.
Import Keyboard.
Context {St : Type}.

(** X19.  One [keydown] event leads to at most one callback: either
    nothing happens; or the key is Backspace and [onBackspace] runs (also
    with a modifier held); or [onKeyPress] runs, with no Ctrl, Meta or Alt
    held, on a string of exactly one character, which is the key itself or a
    newline for Enter.  A disabled listener, Tab, F5, the modifier keys and
    shortcuts do nothing. *)
Theorem handleKeyDown_dispatch
    (onKeyPress : option (string → St → St)) (onBackspace : option (St → St))
    (enabled : bool) (event : KeyboardEvent) (st : St) :
  let st' := handleKeyDown onKeyPress onBackspace enabled event st in
  (st' = st
   ∨ (∃ f, onBackspace = Some f ∧ enabled = true
           ∧ key event = "Backspace" ∧ st' = f st)
   ∨ (∃ f k, onKeyPress = Some f ∧ enabled = true
             ∧ ctrlKey event || metaKey event || altKey event = false
             ∧ String.length k = 1%nat
             ∧ (k = key event ∨ key event = "Enter" ∧ k = newline)
             ∧ st' = f k st))
  ∧ (enabled = false → st' = st)
  ∧ (key event ∈ ["Tab"; "F5"; "Shift"; "Control"; "Alt"; "Meta"; "CapsLock"; "Escape"]
     → st' = st)
  ∧ (key event ≠ "Backspace" →
     ctrlKey event || metaKey event || altKey event = true → st' = st).
Proof.
  intros st'. subst st'. unfold handleKeyDown.
  destruct enabled; cbn [negb];
    [|repeat apply conj; intros; first [left; reflexivity | reflexivity]].
  destruct (bool_decide (key event = "Tab") || bool_decide (key event = "F5"))
    eqn:Htab;
    [repeat apply conj; intros; first [left; reflexivity | reflexivity
                                      | discriminate]|].
  apply orb_false_elim in Htab as [Htab Hf5].
  apply bool_decide_eq_false in Htab, Hf5.
  destruct (bool_decide (key event = "Backspace")) eqn:Hbs.
  { apply bool_decide_eq_true in Hbs. repeat apply conj.
    - destruct onBackspace as [f|]; [|left; reflexivity].
      right; left. exists f. repeat split. exact Hbs.
    - discriminate.
    - rewrite Hbs, !elem_of_cons, elem_of_nil.
      intros [?|[?|[?|[?|[?|[?|[?|[?|[]]]]]]]]]; discriminate.
    - intros Hne. contradiction. }
  apply bool_decide_eq_false in Hbs.
  destruct (bool_decide (key event ∈ modifierKeys)) eqn:Hmod;
    [repeat apply conj; intros; first [left; reflexivity | reflexivity
                                      | discriminate]|].
  apply bool_decide_eq_false in Hmod.
  assert (Hnot : key event ∉ ["Tab"; "F5"; "Shift"; "Control"; "Alt"; "Meta";
                              "CapsLock"; "Escape"]).
  { intros Hin. apply elem_of_cons in Hin as [?|Hin]; [contradiction|].
    apply elem_of_cons in Hin as [?|Hin]; [contradiction|].
    apply Hmod. exact Hin. }
  destruct (ctrlKey event || metaKey event || altKey event) eqn:Hshort;
    [repeat apply conj; intros; first [left; reflexivity | reflexivity
                                      | discriminate | contradiction]|].
  destruct (String.length (key event) =? 1)%nat eqn:Hone;
    destruct (bool_decide (key event = "Enter")) eqn:Henter.
  - apply bool_decide_eq_true in Henter. rewrite Henter in Hone. discriminate.
  - apply Nat.eqb_eq in Hone. repeat apply conj;
      try (intros; first [discriminate | contradiction]).
    destruct onKeyPress as [f|]; [|left; reflexivity].
    right; right. exists f, (key event). repeat split; [exact Hone|left; reflexivity].
  - apply bool_decide_eq_true in Henter. repeat apply conj;
      try (intros; first [discriminate | contradiction]).
    destruct onKeyPress as [f|]; [|left; reflexivity].
    right; right. exists f, newline. repeat split. right. split; [exact Henter|reflexivity].
  - repeat apply conj; intros;
      first [left; reflexivity | reflexivity | discriminate | contradiction].
Qed.

End ListenerFacts.

Section TallyFold.
Import Store.
Context {R : Type}.

(** One [UPDATE_MISTYPED_KEYS] adds one to the count of its key only. *)
Lemma UPDATE_count (st : AppState (list R) (gmap string nat)) (key k : string) :
  count (mistypedKeys (appReducer st (A_UPDATE_MISTYPED_KEYS key))) k
  = (count (mistypedKeys st) k + if bool_decide (key = k) then 1 else 0)%nat.
Proof.
  simpl. unfold count.
  destruct (bool_decide (key = k)) eqn:Hk.
  - apply bool_decide_eq_true in Hk. subst k. rewrite lookup_insert_eq. reflexivity.
  - apply bool_decide_eq_false in Hk. rewrite lookup_insert_ne by exact Hk. lia.
Qed.

(** X20.  The tally counts occurrences: after recording a list of
    mistyped keys of one character each, one by one, the count of each key
    of one character has grown by the number of times it occurs in the list,
    and the history is as before. *)
Theorem recordMistypedKey_counts (st : AppState (list R) (gmap string nat))
    (keys : list string) (k : string) :
  Forall (λ key, String.length key = 1%nat) keys →
  String.length k = 1%nat →
  let st' := foldl appReducer st (A_UPDATE_MISTYPED_KEYS <$> keys) in
  count (mistypedKeys st') k
  = (count (mistypedKeys st) k
     + length (List.filter (λ key, bool_decide (key = k)) keys))%nat
  ∧ history st' = history st.
Proof.
  intros _ _ st'. subst st'.
  induction keys as [|key keys [IHc IHh]] using rev_ind; [simpl; split; [lia|reflexivity]|].
  rewrite fmap_app, foldl_app. cbn [fmap list_fmap foldl].
  split.
  - rewrite UPDATE_count, IHc, List.filter_app, length_app. simpl.
    destruct (bool_decide (key = k)); simpl; lia.
  - exact IHh.
Qed.

End TallyFold.

(** X20 for the keys "a", "b", "a" recorded into the empty tally. *)
Lemma recordMistypedKey_counts_witness :
  Store.count
    (Store.mistypedKeys
       (foldl Store.appReducer (Store.initialState (R := unit))
          (Store.A_UPDATE_MISTYPED_KEYS <$> ["a"; "b"; "a"])))
    "a"
  = 2%nat.
Proof.
  apply (proj1 (recordMistypedKey_counts (Store.initialState (R := unit))
                  ["a"; "b"; "a"] "a"
                  ltac:(repeat constructor) ltac:(reflexivity))).
Defined.

Section ImportFacts.
Import Json Store.


End ImportFacts.


(** X19 for the key 'a' with the Ctrl key held, and for Enter. *)
Lemma handleKeyDown_dispatch_witness :
  Keyboard.handleKeyDown (Some (λ k log, log ++ [k])) None true
    (Keyboard.mkKeyboardEvent "a" true false false) []
  = [].
Proof.
  apply (proj2 (proj2 (proj2
           (handleKeyDown_dispatch (Some (λ k log, log ++ [k])) None true
              (Keyboard.mkKeyboardEvent "a" true false false) [])))).
  - discriminate.
  - reflexivity.
Defined.

(** ** The test screen *)

Section TestScreenFacts.
Import Store Session TestScreen.
Variable text : string.
Variable difficulty : string.
Variable exerciseId : option Z.
Implicit Types (st : State) (a : AppState (list Analytics.SessionRecord) (gmap string nat)).

Lemma TestMode_keydown_cases (timerFinished shown : bool) event now
    (h : Hook (list Analytics.SessionRecord)) :
  TestMode.keydown text timerFinished shown event now h = h
  ∨ (isComplete (session h) = false ∧ timerFinished = false ∧ shown = false
     ∧ Js.isEmpty text = false
     ∧ ∃ key, TestMode.keydown text timerFinished shown event now h
              = handleKeyPress text key now h).
Proof.
  destruct (Js.isEmpty text) eqn:Hempty.
  { left. unfold TestMode.keydown, Keyboard.handleKeyDown.
    assert (∀ k, handleKeyPress text k now h = h) as Hk.
    { intros k. unfold handleKeyPress. rewrite Hempty, orb_true_r. reflexivity. }
    repeat match goal with
           | |- context [if ?b then _ else _] => destruct b
           end; rewrite ?Hk; reflexivity. }
  unfold TestMode.keydown, Keyboard.handleKeyDown.
  destruct (isComplete (session h)) eqn:Hdone; cbn [negb andb];
    [left; reflexivity|].
  destruct timerFinished; cbn [negb andb]; [left; reflexivity|].
  destruct shown; cbn [negb andb]; [left; reflexivity|].
  destruct (bool_decide (Keyboard.key event = "Tab")
            || bool_decide (Keyboard.key event = "F5")); [left; reflexivity|].
  destruct (bool_decide (Keyboard.key event = "Backspace")); [left; reflexivity|].
  destruct (bool_decide (Keyboard.key event ∈ Keyboard.modifierKeys));
    [left; reflexivity|].
  destruct (Keyboard.ctrlKey event || Keyboard.metaKey event
            || Keyboard.altKey event); [left; reflexivity|].
  destruct (String.length (Keyboard.key event) =? 1)%nat eqn:Hone;
    destruct (bool_decide (Keyboard.key event = "Enter")) eqn:Henter.
  - apply bool_decide_eq_true in Henter. rewrite Henter in Hone. discriminate.
  - right. repeat split. exists (Keyboard.key event). reflexivity.
  - right. repeat split. exists Keyboard.newline. reflexivity.
  - left. reflexivity.
Qed.

Lemma handleKeyPress_accepted key now (h : Hook (list Analytics.SessionRecord)) :
  isComplete (session h) = false → Js.isEmpty text = false →
  hasStarted (session (handleKeyPress text key now h)) = true
  ∧ history (app (handleKeyPress text key now h)) = history (app h)
  ∧ (isComplete (session (handleKeyPress text key now h)) = true →
     elapsedTime (session (handleKeyPress text key now h))
     = elapsedTime (session h)).
Proof.
  intros Hopen Hne. unfold handleKeyPress. rewrite Hopen, Hne. simpl.
  repeat split.
  destruct (Js.strictEq key _), (hasStarted (session h)), (_ <=? _); reflexivity.
Qed.

Lemma effects_settled date st :
  Settled st → effects difficulty exerciseId date st = st.
Proof.
  intros [Hres Htim Hidle Hfin]. unfold effects.
  destruct st as [h t shown]. simpl in *. subst shown.
  destruct (hasStarted (session h)) eqn:Hst, (Timer.isFinished t) eqn:Hf,
    (Timer.isRunning t) eqn:Hr, (isComplete (session h)) eqn:Hc;
    simpl; try reflexivity;
    try (specialize (Hfin eq_refl); discriminate);
    try (destruct (Htim eq_refl); discriminate).
Qed.

(** The effects settle any state in which a finished timer is not
    running, an idle session has a fresh timer and no results, and results
    are shown only for a session that has ended. *)
Lemma effects_settle date st :
  (Timer.isFinished (timer st) = true → Timer.isRunning (timer st) = false) →
  (hasStarted (session (hook st)) = false →
   timer st = Timer.useTimer TestMode.TEST_DURATION ∧ showResults st = false) →
  (showResults st = true →
   hasStarted (session (hook st)) = true
   ∧ (Timer.isFinished (timer st) || isComplete (session (hook st))) = true) →
  Settled (effects difficulty exerciseId date st).
Proof.
  intros Hfin Hidle Hshown. unfold effects.
  destruct st as [h t shown]. cbn [hook timer showResults] in *.
  destruct (hasStarted (session h)) eqn:Hst.
  - unfold Timer.start.
    destruct (Timer.isRunning t) eqn:Hr, (Timer.isFinished t) eqn:Hf,
      (isComplete (session h)) eqn:Hc, shown;
      cbn [andb negb orb] in *;
      try (specialize (Hfin eq_refl); discriminate);
      try (destruct (Hshown eq_refl); discriminate);
      split; cbn [hook timer showResults session Timer.isRunning Timer.isFinished];
      rewrite ?Hst, ?Hf, ?Hc, ?Hr; try reflexivity;
      try (intros; first [left; reflexivity | right; reflexivity | congruence]).
  - destruct (Hidle eq_refl) as [-> ->]. cbn [andb negb orb].
    rewrite !andb_false_r. cbn [andb].
    split; cbn [hook timer showResults session]; rewrite ?Hst; try reflexivity;
      intros; congruence.
Qed.

Lemma tick_finished_stays (t : Timer.State) :
  (Timer.isFinished t = true → Timer.isRunning t = false) →
  (Timer.isFinished (Timer.tick t) = true → Timer.isRunning (Timer.tick t) = false)
  ∧ (Timer.isFinished t = true → Timer.isFinished (Timer.tick t) = true).
Proof.
  intros Hfin. unfold Timer.tick, Timer.intervalActive.
  destruct (Timer.isRunning t) eqn:Hr; cbn [andb].
  - destruct (0 <? Timer.timeRemaining t);
      [|split; [intros Hf; specialize (Hfin Hf); congruence|tauto]].
    destruct (Timer.timeRemaining t <=? 1); cbn; [tauto|].
    split; [intros Hf; specialize (Hfin Hf); congruence|tauto].
  - split; [intros _; exact Hr|tauto].
Qed.

Lemma Settled_step e st : Settled st → Settled (step text difficulty exerciseId e st).
Proof.
  intros [Hres Htim Hidle Hfin]. destruct e as [[event now| |now|] date];
    unfold step; cbn [fst snd handle]; apply effects_settle;
    cbn [hook timer showResults].
  - exact Hfin.
  - destruct (TestMode_keydown_cases (Timer.isFinished (timer st)) (showResults st)
                event now (hook st))
      as [->|(Hc & Ht & Hsh & Hne & key & ->)].
    + intros Hst. split; [apply Hidle; exact Hst|]. rewrite Hres, Hst. reflexivity.
    + destruct (handleKeyPress_accepted key now (hook st) Hc Hne) as (Hst & _).
      congruence.
  - destruct (TestMode_keydown_cases (Timer.isFinished (timer st)) (showResults st)
                event now (hook st))
      as [->|(Hc & Ht & Hsh & Hne & key & ->)].
    + intros Hsh. rewrite Hres in Hsh. apply andb_true_iff in Hsh. exact Hsh.
    + congruence.
  - apply tick_finished_stays. exact Hfin.
  - intros Hst. rewrite (Hidle Hst). split; [reflexivity|].
    rewrite Hres, Hst. reflexivity.
  - intros Hsh. rewrite Hres in Hsh. apply andb_true_iff in Hsh as [Hst Hend].
    split; [exact Hst|]. apply orb_true_iff in Hend as [Hf|Hc].
    + rewrite (proj2 (tick_finished_stays (timer st) Hfin) Hf). reflexivity.
    + rewrite Hc. apply orb_true_r.
  - exact Hfin.
  - cbn [session]. unfold updateElapsed.
    destruct (hasStarted (session (hook st))) eqn:Hst; cbn [andb].
    + destruct (negb (isComplete (session (hook st)))); [|congruence].
      destruct (startTime (session (hook st))); cbn; congruence.
    + intros _. split; [apply Hidle; reflexivity|]. rewrite Hres. reflexivity.
  - cbn [session]. intros Hsh. rewrite Hres in Hsh.
    apply andb_true_iff in Hsh as [Hst Hend]. unfold updateElapsed.
    rewrite Hst. cbn [andb].
    destruct (isComplete (session (hook st))) eqn:Hc; cbn [negb].
    + rewrite Hst, Hc. split; [reflexivity|apply orb_true_r].
    + destruct (startTime (session (hook st))); cbn;
        rewrite ?Hst, ?Hc; split; try reflexivity; exact Hend.
  - intros _. reflexivity.
  - intros _. split; reflexivity.
  - discriminate.
Qed.

Lemma Settled_initial a : Settled (initial a).
Proof. split; simpl; try reflexivity; intros; congruence. Qed.

Lemma run_snoc es e st :
  run text difficulty exerciseId (es ++ [e]) st
  = step text difficulty exerciseId e (run text difficulty exerciseId es st).
Proof. unfold run. rewrite foldl_app. reflexivity. Qed.

Lemma Settled_run es st :
  Settled st → Settled (run text difficulty exerciseId es st).
Proof.
  intros Hs. induction es as [|e es IH] using rev_ind; [exact Hs|].
  rewrite run_snoc. apply Settled_step. exact IH.
Qed.

(** X22.  Between events the test screen is settled, whatever happened
    (keys, ticks, restarts): the results are shown exactly when typing has
    started and the timer has finished or the exercise is complete; the
    timer is untouched until typing starts and running or finished once it
    has; the effects have nothing left to do; and while the results are
    shown, or once the timer has finished, a key event changes nothing. *)
Theorem test_screen_settled a (es : list (Event * string)) :
  let st := run text difficulty exerciseId es (initial a) in
  Settled st
  ∧ (∀ date, effects difficulty exerciseId date st = st)
  ∧ (showResults st = true ∨ Timer.isFinished (timer st) = true →
     ∀ event now date,
       step text difficulty exerciseId (KeyDown event now, date) st = st).
Proof.
  intros st.
  pose proof (Settled_run es (initial a) (Settled_initial a)) as Hs. fold st in Hs.
  split; [exact Hs|]. split; [intros date; apply effects_settled; exact Hs|].
  intros Hoff event now date. unfold step. simpl.
  destruct (TestMode_keydown_cases (Timer.isFinished (timer st)) (showResults st)
              event now (hook st))
    as [->|(_ & Ht & Hsh & _)].
  - destruct st as [h t shown]. apply effects_settled. exact Hs.
  - destruct Hoff; congruence.
Qed.

End TestScreenFacts.

Section TestScreenHistory.
Import Store Session TestScreen.
Variable text : string.
Variable difficulty : string.
Variable exerciseId : option Z.
Implicit Types (st : State) (a : AppState (list Analytics.SessionRecord) (gmap string nat)).

Lemma effects_hidden date st before :
  showResults st = false →
  history (app (hook st)) = before →
  let st' := effects difficulty exerciseId date st in
  (showResults st' = false ∧ history (app (hook st')) = before)
  ∨ (showResults st' = true ∧ Recorded before st').
Proof.
  intros Hsh Hh st'. subst st'. unfold effects. rewrite Hsh. cbn [negb].
  rewrite andb_true_r.
  destruct ((Timer.isFinished (timer st) || isComplete (session (hook st)))
            && hasStarted (session (hook st))) eqn:Hend.
  - right. split; [reflexivity|]. unfold Recorded.
    exists (historyRecord difficulty exerciseId date st).
    cbn [hook session app ADD_HISTORY history]. rewrite Hh. unfold Js.sliceTo.
    repeat split. cbn [historyRecord Analytics.duration].
    apply andb_true_iff in Hend as [Hend _].
    destruct (Timer.isFinished (timer st)); [left; reflexivity|].
    right. split; [exact Hend|reflexivity].
  - left. split; [reflexivity|exact Hh].
Qed.

Lemma effects_shown date st :
  showResults st = true →
  hook (effects difficulty exerciseId date st) = hook st
  ∧ showResults (effects difficulty exerciseId date st) = true.
Proof.
  intros Hsh. unfold effects. rewrite Hsh. cbn [negb]. rewrite andb_false_r.
  split; reflexivity.
Qed.

Lemma step_history e st before :
  (match e.1 with Restart => false | _ => true end) = true →
  Settled st →
  (showResults st = false → history (app (hook st)) = before) →
  (showResults st = true → Recorded before st) →
  let st' := step text difficulty exerciseId e st in
  (showResults st' = false → history (app (hook st')) = before)
  ∧ (showResults st' = true → Recorded before st').
Proof.
  intros He Hs Hhid Hrec st'.
  destruct (showResults st) eqn:Hsh.
  - (* the results are on screen *)
    specialize (Hrec eq_refl). clear Hhid.
    assert (showResults st' = true ∧ Recorded before st') as [Hsh' Hrec'];
      [|split; [congruence|intros _; exact Hrec']].
    subst st'. destruct e as [[event now| |now|] date]; try discriminate;
      unfold step; cbn [fst snd handle].
    + destruct (TestMode_keydown_cases text (Timer.isFinished (timer st))
                  (showResults st) event now (hook st))
        as [->|(_ & _ & Hoff & _)]; [|congruence].
      destruct (effects_shown date (mkState (hook st) (timer st) (showResults st)) Hsh)
        as [Hhook Hshown].
      split; [exact Hshown|]. unfold Recorded. rewrite Hhook. exact Hrec.
    + destruct (effects_shown date
                  (mkState (hook st) (Timer.tick (timer st)) (showResults st)) Hsh)
        as [Hhook Hshown].
      split; [exact Hshown|]. unfold Recorded. rewrite Hhook. exact Hrec.
    + destruct (effects_shown date
                  (mkState (mkHook (updateElapsed now (session (hook st)))
                              (app (hook st)))
                     (timer st) (showResults st)) Hsh) as [Hhook Hshown].
      split; [exact Hshown|]. unfold Recorded. rewrite Hhook. cbn [hook session app].
      destruct Hrec as (r & Hh & Hm & He' & Ht & Hd). exists r.
      unfold updateElapsed.
      destruct (hasStarted (session (hook st)) && negb (isComplete (session (hook st))))
        eqn:Hrun.
      * apply andb_true_iff in Hrun as [_ Hopen]. apply negb_true_iff in Hopen.
        destruct (startTime (session (hook st))); cbn;
          repeat split; try assumption;
          (destruct Hd as [Hd|[Hc _]]; [left; exact Hd|congruence]).
      * repeat split; assumption.
  - (* the results are not on screen *)
    specialize (Hhid eq_refl). clear Hrec.
    assert (Hpost : showResults (handle text e.1 st) = false
                    ∧ history (app (hook (handle text e.1 st))) = before).
    { destruct e as [[event now| |now|] date]; try discriminate;
        cbn [fst handle hook showResults app]; (split; [exact Hsh|]);
        try exact Hhid.
      destruct (TestMode_keydown_cases text (Timer.isFinished (timer st))
                  (showResults st) event now (hook st))
        as [->|(Hc & _ & _ & Hne & key & ->)]; [exact Hhid|].
      destruct (handleKeyPress_accepted text key now (hook st) Hc Hne) as (_ & Hh & _).
      rewrite Hh. exact Hhid. }
    destruct Hpost as [Hsh0 Hh0].
    subst st'. unfold step.
    destruct (effects_hidden e.2 (handle text e.1 st) before Hsh0 Hh0)
      as [[Hn Hh']|[Hy Hrec']]; cbv zeta in *.
    + split; [intros _; exact Hh'|congruence].
    + split; [congruence|intros _; exact Hrec'].
Qed.

(** X23.  A test is recorded once: along any run of the test screen
    without a restart, the history is untouched until the results are shown,
    and from then on it holds exactly one new record, in front, of the
    session on the screen: in test mode, with its errors and typed
    characters, and with a duration of 60000 ms or, when the exercise was
    completed, the elapsed time of the session. *)
Theorem test_screen_records_once a (es : list (Event * string)) :
  noRestart es = true →
  let st := run text difficulty exerciseId es (initial a) in
  (showResults st = false → history (app (hook st)) = history a)
  ∧ (showResults st = true → Recorded (history a) st).
Proof.
  intros Hes st. subst st.
  induction es as [|e es IH] using rev_ind.
  - split; [reflexivity|discriminate].
  - unfold noRestart in Hes. rewrite forallb_app in Hes.
    apply andb_true_iff in Hes as [Hes He]. simpl in He. rewrite andb_true_r in He.
    destruct (IH Hes) as [IHhid IHrec].
    rewrite run_snoc.
    apply step_history; try assumption.
    apply Settled_run. apply Settled_initial.
Qed.

End TestScreenHistory.

(** X23 on the text "a": the single key 'a' completes the test. *)
Lemma test_screen_records_once_witness :
  let st :=
    TestScreen.run "a" "Easy" None
      [(TestScreen.KeyDown (Keyboard.mkKeyboardEvent "a" false false false) 0, "d")]
      (TestScreen.initial Store.initialState) in
  TestScreen.showResults st = true
  ∧ length (Store.history (Session.app (TestScreen.hook st))) = 1%nat.
Proof.
  destruct (test_screen_records_once "a" "Easy" None Store.initialState
              [(TestScreen.KeyDown (Keyboard.mkKeyboardEvent "a" false false false) 0,
                "d")] eq_refl) as [_ Hrec].
  split; [reflexivity|].
  destruct (Hrec eq_refl) as (r & Hh & _). rewrite Hh. reflexivity.
Defined.

(** X11 for three strong sessions at the Easy level. *)
Lemma getDifficultyRecommendation_ladder_witness :
  ∃ next,
    Analytics.nextDifficulty
      (Analytics.getDifficultyRecommendation
         [Analytics.mkSessionRecord "t" "test" "Easy" 50 95 100 5 None (Some 60000);
          Analytics.mkSessionRecord "t" "test" "Easy" 50 95 100 5 None (Some 60000);
          Analytics.mkSessionRecord "t" "test" "Easy" 50 95 100 5 None (Some 60000)]
         "Easy")
    = Some next
    ∧ JsLib.indexOf Analytics.difficultyOrder next
      = (JsLib.indexOf Analytics.difficultyOrder "Easy" + 1)%Z.
Proof.
  exact (proj2 (proj1 (proj2 (getDifficultyRecommendation_ladder
           [Analytics.mkSessionRecord "t" "test" "Easy" 50 95 100 5 None (Some 60000);
            Analytics.mkSessionRecord "t" "test" "Easy" 50 95 100 5 None (Some 60000);
            Analytics.mkSessionRecord "t" "test" "Easy" 50 95 100 5 None (Some 60000)]
           "Easy")) eq_refl)).
Defined.

(** X12 for a tally of three keys, asking for the top two. *)
Lemma getTopMistypedKeys_top_witness :
  length (Analytics.getTopMistypedKeys [("a", 3); ("b", 7); ("c", 5)]%nat 2) = 2%nat.
Proof.
  rewrite (proj1 (getTopMistypedKeys_top [("a", 3); ("b", 7); ("c", 5)]%nat 2)).
  reflexivity.
Defined.

(** X13 for two exercises of the same level. *)
Lemma getDifficultyLevels_ordered_witness :
  "Easy" ∈ Csv.getDifficultyLevels
             [Csv.mkExercise 1 "asdf" "home.txt" 1 1 1 "Easy" 1;
              Csv.mkExercise 1 "asdf" "home.txt" 1 1 1 "Easy" 1].
Proof.
  apply (proj1 (proj2 (getDifficultyLevels_ordered
                         [Csv.mkExercise 1 "asdf" "home.txt" 1 1 1 "Easy" 1;
                          Csv.mkExercise 1 "asdf" "home.txt" 1 1 1 "Easy" 1]))).
  eexists. split; [apply list_elem_of_here|reflexivity].
Defined.

(** X14 for one exercise and the random number 1/2. *)
Lemma getRandomExercise_of_level_witness :
  Csv.mkExercise 1 "asdf" "home.txt" 1 1 1 "Easy" 1
  ∈ [Csv.mkExercise 1 "asdf" "home.txt" 1 1 1 "Easy" 1]
  ∧ Csv.difficulty (Csv.mkExercise 1 "asdf" "home.txt" 1 1 1 "Easy" 1) = "Easy".
Proof.
  apply (proj2 (getRandomExercise_of_level
                  [Csv.mkExercise 1 "asdf" "home.txt" 1 1 1 "Easy" 1] "Easy" (1 # 2)
                  ltac:(discriminate) ltac:(reflexivity))
           (Csv.mkExercise 1 "asdf" "home.txt" 1 1 1 "Easy" 1)).
  reflexivity.
Defined.

(** X22 on the text "a" once it is typed: the next key changes nothing. *)
Lemma test_screen_settled_witness :
  TestScreen.step "a" "Easy" None
    (TestScreen.KeyDown (Keyboard.mkKeyboardEvent "b" false false false) 5, "e")
    (TestScreen.run "a" "Easy" None
       [(TestScreen.KeyDown (Keyboard.mkKeyboardEvent "a" false false false) 0, "d")]
       (TestScreen.initial Store.initialState))
  = TestScreen.run "a" "Easy" None
      [(TestScreen.KeyDown (Keyboard.mkKeyboardEvent "a" false false false) 0, "d")]
      (TestScreen.initial Store.initialState).
Proof.
  apply (proj2 (proj2 (test_screen_settled "a" "Easy" None Store.initialState
           [(TestScreen.KeyDown (Keyboard.mkKeyboardEvent "a" false false false) 0,
             "d")]))).
  left. reflexivity.
Defined.
